(** * hack/tags/tags.go: the version tag updater

    A shallow embedding of the release-tagging helper: the two increment
    functions, the two marker-file writers, the dev-file reader and [main],
    over an explicit model of the file system and of the console.

    Layout:
    - the slice of the Go standard library the program calls
      ([strings.Split], [strconv.Atoi], [fmt.Sprintf], [os], [bufio], [io]);
    - the YAML package, taken as a parameter;
    - the program itself, function by function;
    - the properties. *)

From Stdlib Require Import ZArith String Ascii List Lia.
From stdpp Require Import gmap strings.
Import ListNotations.

Local Open Scope string_scope.
Local Open Scope Z_scope.

(** ** Bytes and strings

    A Go string is a sequence of bytes; [string] over [ascii] is the same
    thing.  Rocq string literals have no escapes, so the line feed is named. *)

Definition LF : string := String (ascii_of_nat 10) "".

Definition len (s : string) : Z := Z.of_nat (String.length s).

Definition byte (c : ascii) : Z := Z.of_N (N_of_ascii c).

(** ** strings.Split

    The program only ever splits on the one-byte separator ["."]; [sep] is
    that byte.  The result has one more element than [s] has separators, so
    it is never empty: splitting the empty string gives [[""]]. *)

Fixpoint strings_Split (s : string) (sep : ascii) : list string :=
  match s with
  | "" => [""]
  | String c r =>
      if Ascii.eqb c sep then "" :: strings_Split r sep
      else match strings_Split r sep with
           | item :: items => String c item :: items
           | [] => [String c ""]
           end
  end.

(** ** strconv.Atoi

    [Atoi s] is [ParseInt s 10 0] converted to [int] (its fast path for
    short strings computes the same); [int] is taken 64 bits wide, as on
    amd64 and arm64. *)

Definition intSize : Z := 64.
Definition maxUint64 : Z := 2 ^ 64 - 1.
Definition maxInt : Z := 2 ^ (intSize - 1) - 1.
Definition minInt : Z := - 2 ^ (intSize - 1).

Inductive NumErrorKind := ErrSyntax | ErrRange.

Definition isDigit (c : ascii) : bool := (48 <=? byte c) && (byte c <=? 57).

(** The digit loop of [ParseUint] in base 10: a byte that is not a digit is
    a syntax error, a value that leaves [uint64] is a range error, and the
    first of the two met from the left wins. *)
Fixpoint parseUint_loop (n : Z) (s : string) : Z * option NumErrorKind :=
  match s with
  | "" => (n, None)
  | String c r =>
      if isDigit c then
        let d := byte c - 48 in
        if maxUint64 / 10 + 1 <=? n then (maxUint64, Some ErrRange)
        else
          let n1 := n * 10 + d in
          if maxUint64 <? n1 then (maxUint64, Some ErrRange)
          else parseUint_loop n1 r
      else (0, Some ErrSyntax)
  end.

Definition strconv_ParseUint (s : string) : Z * option NumErrorKind :=
  match s with
  | "" => (0, Some ErrSyntax)
  | _ => parseUint_loop 0 s
  end.

Definition strconv_ParseInt (s : string) : Z * option NumErrorKind :=
  match s with
  | "" => (0, Some ErrSyntax)
  | String c r =>
      let '(neg, s') :=
        if Ascii.eqb c "+" then (false, r)
        else if Ascii.eqb c "-" then (true, r)
        else (false, s) in
      let '(un, err) := strconv_ParseUint s' in
      match err with
      | Some ErrSyntax => (0, err)
      | _ =>
          let cutoff := 2 ^ (intSize - 1) in
          if negb neg && (cutoff <=? un) then (cutoff - 1, Some ErrRange)
          else if neg && (cutoff <? un) then (- cutoff, Some ErrRange)
          else (if neg then - un else un, None)
      end
  end.

Definition strconv_Atoi (s : string) : Z * option NumErrorKind :=
  strconv_ParseInt s.

(** ** Go [int] arithmetic: [+] wraps around on overflow. *)

Definition wrap_int (z : Z) : Z :=
  (z + 2 ^ (intSize - 1)) mod 2 ^ intSize - 2 ^ (intSize - 1).

Definition int_add (a b : Z) : Z := wrap_int (a + b).

(** ** fmt.Sprintf: the verb [%d]

    Decimal digits, most significant first, with a leading [-] for a
    negative number.  The fuel is the bit length of the number, which is at
    least its number of decimal digits. *)

Definition digitChar (d : Z) : ascii := ascii_of_N (Z.to_N (48 + d)).

Fixpoint fmt_digits (fuel : nat) (n : Z) (acc : string) : string :=
  match fuel with
  | O => acc
  | S fuel' =>
      let acc' := String (digitChar (n mod 10)) acc in
      if n <? 10 then acc' else fmt_digits fuel' (n / 10) acc'
  end.

Definition fmt_d (n : Z) : string :=
  if n <? 0 then String "-" (fmt_digits (S (Z.to_nat (Z.log2 (- n)))) (- n) "")
  else fmt_digits (S (Z.to_nat (Z.log2 n))) n "".

(** ** Errors

    The three package-level sentinels are values of package [main]; no
    library can return them.  Every error that comes out of [os], [io],
    [bufio], [strconv] or the YAML package is a [LibError] carrying its
    message. *)

Inductive error :=
| ErrInvalidVersionFormat
| ErrDataReaderFailed
| ErrDataWriterFailed
| LibError (msg : string).

Definition Error (e : error) : string :=
  match e with
  | ErrInvalidVersionFormat => "invalid version format"
  | ErrDataReaderFailed => "datareader is empty"
  | ErrDataWriterFailed => "datawriter is empty"
  | LibError msg => msg
  end.

(** A Go result pair [(v, err)]: [Err err] stands for [(zero, err)]. *)
Inductive result (A : Type) :=
| Ok (a : A)
| Err (err : error).

Arguments Ok {A} a.
Arguments Err {A} err.

(** ** The world: marker files and console *)

Record World := mkWorld {
  files : gmap string string;
  stdout : list string
}.

Definition IO (A : Type) : Type := World -> A * World.

Definition ret {A} (a : A) : IO A := fun w => (a, w).

Definition bind {A B} (m : IO A) (k : A -> IO B) : IO B :=
  fun w => let '(a, w') := m w in k a w'.

Notation "x <- m ;; k" := (bind m (fun x => k))
  (at level 100, m at next level, right associativity).
Notation "m ;; k" := (bind m (fun _ => k))
  (at level 100, right associativity).

Definition fmt_Printf (s : string) : IO unit :=
  fun w => (tt, {| files := files w; stdout := stdout w ++ [s] |}).

Definition put_file (name contents : string) : IO unit :=
  fun w => (tt, {| files := <[name := contents]> (files w); stdout := stdout w |}).

(** ** The environment: which system calls fail

    A run opens, writes, reads and closes each marker file at most once in
    each mode, so a fault is fixed by the path and the call.  A write fault
    says how many bytes reached the file before the error. *)

Record Faults := mkFaults {
  open_fault : string -> Z -> option string;
  write_fault : string -> option (nat * string);
  read_fault : string -> option string;
  close_fault : string -> option string
}.

Definition O_RDONLY : Z := 0.
Definition O_RDWR : Z := 2.
Definition O_CREATE : Z := 64.
Definition O_TRUNC : Z := 512.

Definition has_flag (flag bit : Z) : bool := negb (Z.land flag bit =? 0).

Record File := { file_name : string }.

(** bufio: a writer holds the bytes not yet sent to its file and the first
    error it met; a fresh one has room for [defaultBufSize] bytes. *)
Definition defaultBufSize : Z := 4096.

Record Writer := mkWriter {
  wr : File;
  buf : string;
  werr : option error
}.

Record Reader := { rd : File }.

Definition Buffered (b : Writer) : Z := len (buf b).
Definition Available (b : Writer) : Z := defaultBufSize - len (buf b).

Definition str_take (n : nat) (s : string) : string := String.substring 0 n s.
Definition str_drop (n : nat) (s : string) : string :=
  String.substring n (String.length s - n) s.

Definition isNil {A} (o : option A) : bool :=
  match o with None => true | Some _ => false end.

(** [NewWriter] and [NewReader] return a pointer, modelled as an option,
    and always allocate. *)
Definition bufio_NewWriter (w : File) : option Writer :=
  Some {| wr := w; buf := ""; werr := None |}.

Definition bufio_NewReader (r : File) : option Reader :=
  Some {| rd := r |}.

(** ** The YAML package (github.com/ghodss/yaml), a parameter

    [inr msg] is a failure with that message. *)

Record Version := mkVersion { Version_Version : string }.

Record YamlPackage := {
  Marshal : Version -> string + string;
  Unmarshal : string -> Version + string
}.

(** ** The program's constants *)

Definition DefaultTagVersion : string := "dev.1".
Definition DevFullPathFilename : string := "hack/DEV_BUILD_VERSION.yaml".
Definition NewVersionFullPathFilename : string := "hack/NEW_BUILD_VERSION".
Definition NumberOfSemVerSeparators : Z := 3.
Definition NumberOfSeparatorsInDevTag : Z := 2.

(** The octal literal 0755. *)
Definition perm_0755 : Z := 7 * 64 + 5 * 8 + 5.

Section Program.

Variable yaml : YamlPackage.
Variable io : Faults.

Definition yaml_Marshal (o : Version) : result string :=
  match Marshal yaml o with
  | inl bytes => Ok bytes
  | inr msg => Err (LibError msg)
  end.

Definition yaml_Unmarshal (y : string) : result Version :=
  match Unmarshal yaml y with
  | inl o => Ok o
  | inr msg => Err (LibError msg)
  end.

(** *** os *)

Definition PathError (op path msg : string) : error :=
  LibError (op +:+ " " +:+ path +:+ ": " +:+ msg).

(** [perm] only matters to the mode bits of a file that gets created. *)
Definition os_OpenFile (name : string) (flag perm : Z) : IO (result File) :=
  fun w =>
    match open_fault io name flag with
    | Some msg => (Err (PathError "open" name msg), w)
    | None =>
        match files w !! name with
        | Some _ =>
            if has_flag flag O_TRUNC
            then (x <- put_file name "" ;; ret (Ok {| file_name := name |})) w
            else (Ok {| file_name := name |}, w)
        | None =>
            if has_flag flag O_CREATE
            then (x <- put_file name "" ;; ret (Ok {| file_name := name |})) w
            else (Err (PathError "open" name "no such file or directory"), w)
        end
    end.

(** The marker files are written front to back from offset 0 of a file
    just truncated, so a write appends. *)
Definition File_Write (f : File) (b : string) : IO (nat * option error) :=
  fun w =>
    let old := default "" (files w !! file_name f) in
    match write_fault io (file_name f) with
    | Some (n, msg) =>
        let written := str_take n b in
        (x <- put_file (file_name f) (old +:+ written) ;;
         ret (String.length written, Some (PathError "write" (file_name f) msg))) w
    | None =>
        (x <- put_file (file_name f) (old +:+ b) ;;
         ret (String.length b, None)) w
    end.

Definition File_Close (f : File) : IO (option error) :=
  fun w =>
    match close_fault io (file_name f) with
    | Some msg => (Some (PathError "close" (file_name f) msg), w)
    | None => (None, w)
    end.

(** *** bufio and io *)

Definition bufio_Flush (b : Writer) : IO (Writer * option error) :=
  match werr b with
  | Some e => ret (b, Some e)
  | None =>
      if Buffered b =? 0 then ret (b, None)
      else
        r <- File_Write (wr b) (buf b) ;;
        match snd r with
        | Some e =>
            ret ({| wr := wr b; buf := str_drop (fst r) (buf b); werr := Some e |}, Some e)
        | None => ret ({| wr := wr b; buf := ""; werr := None |}, None)
        end
  end.

(** [Write] loops while the bytes left do not fit in the buffer and no
    error is recorded: with an empty buffer they go straight to the file,
    otherwise the buffer is filled and flushed.  The second case empties
    the buffer, the first consumes everything, so the loop has at most two
    turns; they are written out.  Every caller discards the byte count. *)
Definition write_through (b : Writer) (p : string) : IO (Writer * string) :=
  r <- File_Write (wr b) p ;;
  ret ({| wr := wr b; buf := buf b; werr := snd r |}, str_drop (fst r) p).

Definition fill_and_flush (b : Writer) (p : string) : IO (Writer * string) :=
  let n := Z.to_nat (Available b) in
  r <- bufio_Flush {| wr := wr b; buf := buf b +:+ str_take n p; werr := werr b |} ;;
  ret (fst r, str_drop n p).

Definition write_turn (b : Writer) (p : string) : IO (Writer * string) :=
  if (Available b <? len p) && isNil (werr b) then
    if Buffered b =? 0 then write_through b p else fill_and_flush b p
  else ret (b, p).

Definition bufio_Write (b : Writer) (p : string) : IO (Writer * option error) :=
  r1 <- write_turn b p ;;
  r2 <- write_turn (fst r1) (snd r1) ;;
  let b := fst r2 in
  let p := snd r2 in
  match werr b with
  | Some e => ret (b, Some e)
  | None => ret ({| wr := wr b; buf := buf b +:+ p; werr := None |}, None)
  end.

Definition io_ReadAll (r : Reader) : IO (result string) :=
  fun w =>
    match read_fault io (file_name (rd r)) with
    | Some msg => (Err (PathError "read" (file_name (rd r)) msg), w)
    | None => (Ok (default "" (files w !! file_name (rd r))), w)
    end.

(** *** Release version *)

Definition incrementRelease (tag : string) : IO (result string) :=
  let items := strings_Split tag "." in
  if negb (Z.of_nat (length items) =? NumberOfSemVerSeparators) then
    fmt_Printf ("Split version failed" +:+ LF) ;;
    ret (Err ErrInvalidVersionFormat)
  else
    let '(ver, err) := strconv_Atoi (nth 1 items "") in
    match err with
    | Some _ =>
        fmt_Printf ("String to int failed" +:+ LF) ;;
        ret (Err ErrInvalidVersionFormat)
    | None =>
        let newMajor := nth 0 items "" in
        let newMinor := int_add ver 1 in
        let newVersionStr := newMajor +:+ "." +:+ fmt_d newMinor +:+ ".0" in
        fmt_Printf ("incrementRelease: " +:+ newVersionStr +:+ LF) ;;
        ret (Ok newVersionStr)
    end.

Definition saveRelease (version : string) : IO (option error) :=
  r <- os_OpenFile NewVersionFullPathFilename
         (Z.lor O_RDWR (Z.lor O_CREATE O_TRUNC)) perm_0755 ;;
  match r with
  | Err err =>
      fmt_Printf ("Open for write failed. Err: " +:+ Error err +:+ LF) ;;
      ret (Some err)
  | Ok fileWrite =>
      match bufio_NewWriter fileWrite with
      | None =>
          fmt_Printf ("Datawriter creation failed" +:+ LF) ;;
          ret (Some ErrDataWriterFailed)
      | Some datawriter =>
          r <- bufio_Write datawriter version ;;
          match snd r with
          | Some err =>
              fmt_Printf ("datawriter.Write error. Err: " +:+ Error err +:+ LF) ;;
              ret (Some err)
          | None =>
              bufio_Flush (fst r) ;;
              err <- File_Close fileWrite ;;
              match err with
              | Some err =>
                  fmt_Printf ("fileWrite.Close failed. Err: " +:+ Error err +:+ LF) ;;
                  ret (Some err)
              | None => ret None
              end
          end
      end
  end.

Definition newRelease (current : string) : IO (option error) :=
  r <- incrementRelease current ;;
  match r with
  | Err err =>
      fmt_Printf ("incrementRelease failed. Err: " +:+ Error err +:+ LF) ;;
      ret (Some err)
  | Ok newVersion =>
      err <- saveRelease newVersion ;;
      match err with
      | Some err =>
          fmt_Printf ("saveDev failed. Err: " +:+ Error err +:+ LF) ;;
          ret (Some err)
      | None => ret None
      end
  end.

(** *** Dev version *)

Definition saveDev (tag : string) : IO (option error) :=
  let version := {| Version_Version := tag |} in
  match yaml_Marshal version with
  | Err err =>
      fmt_Printf ("yaml.Marshal error. Err: " +:+ Error err +:+ LF) ;;
      ret (Some err)
  | Ok byRaw =>
      fmt_Printf ("BYTES:" +:+ LF +:+ LF) ;;
      fmt_Printf (byRaw +:+ LF) ;;
      r <- os_OpenFile DevFullPathFilename
             (Z.lor O_RDWR (Z.lor O_CREATE O_TRUNC)) perm_0755 ;;
      match r with
      | Err err =>
          fmt_Printf ("Open for write failed. Err: " +:+ Error err +:+ LF) ;;
          ret (Some err)
      | Ok fileWrite =>
          match bufio_NewWriter fileWrite with
          | None =>
              fmt_Printf ("Datawriter creation failed" +:+ LF) ;;
              ret (Some ErrDataWriterFailed)
          | Some datawriter =>
              r <- bufio_Write datawriter byRaw ;;
              match snd r with
              | Some err =>
                  fmt_Printf ("datawriter.Write error. Err: " +:+ Error err +:+ LF) ;;
                  ret (Some err)
              | None =>
                  bufio_Flush (fst r) ;;
                  err <- File_Close fileWrite ;;
                  match err with
                  | Some err =>
                      fmt_Printf ("fileWrite.Close failed. Err: " +:+ Error err +:+ LF) ;;
                      ret (Some err)
                  | None => ret None
                  end
              end
          end
      end
  end.

Definition resetDev : IO (option error) :=
  saveDev DefaultTagVersion.

Definition getTag : IO (result string) :=
  r <- os_OpenFile DevFullPathFilename O_RDONLY perm_0755 ;;
  match r with
  | Err err =>
      fmt_Printf ("Open for read failed. Err: " +:+ Error err +:+ LF) ;;
      ret (Err err)
  | Ok fileRead =>
      match bufio_NewReader fileRead with
      | None =>
          fmt_Printf ("Datareader creation failed" +:+ LF) ;;
          ret (Err ErrDataReaderFailed)
      | Some dataReader =>
          r <- io_ReadAll dataReader ;;
          match r with
          | Err err =>
              fmt_Printf ("ReadAll failed. Err: " +:+ Error err +:+ LF) ;;
              ret (Err err)
          | Ok byFile =>
              match yaml_Unmarshal byFile with
              | Err err =>
                  fmt_Printf ("Unmarshal failed. Err: " +:+ Error err +:+ LF) ;;
                  ret (Err err)
              | Ok version => ret (Ok (Version_Version version))
              end
          end
      end
  end.

Definition incrementDev (tag : string) : IO (result string) :=
  let items := strings_Split tag "." in
  if negb (Z.of_nat (length items) =? NumberOfSeparatorsInDevTag) then
    fmt_Printf ("Split version failed" +:+ LF) ;;
    ret (Err ErrInvalidVersionFormat)
  else
    let '(ver, err) := strconv_Atoi (nth 1 items "") in
    match err with
    | Some _ =>
        fmt_Printf ("String to int failed" +:+ LF) ;;
        ret (Err ErrInvalidVersionFormat)
    | None =>
        let newVersion := int_add ver 1 in
        let newVersionStr := "dev." +:+ fmt_d newVersion in
        fmt_Printf ("incrementDev: " +:+ newVersionStr +:+ LF) ;;
        ret (Ok newVersionStr)
    end.

Definition bumpDev : IO (option error) :=
  r <- getTag ;;
  match r with
  | Err err =>
      fmt_Printf ("getTag failed. Err: " +:+ Error err +:+ LF) ;;
      ret (Some err)
  | Ok version =>
      r <- incrementDev version ;;
      match r with
      | Err err =>
          fmt_Printf ("incrementDev failed. Err: " +:+ Error err +:+ LF) ;;
          ret (Some err)
      | Ok newVersion =>
          err <- saveDev newVersion ;;
          match err with
          | Some err =>
              fmt_Printf ("saveDev failed. Err: " +:+ Error err +:+ LF) ;;
              ret (Some err)
          | None => ret None
          end
      end
  end.

(** *** main

    [tag] and [release] are the parsed flags (defaults: the empty string
    and [false]).  [main] has no result: how it went shows on the console
    and in the files. *)

Definition main (release : bool) (tag : string) : IO unit :=
  if release then
    if String.eqb tag "" then
      fmt_Printf ("Must supply -tag when -release is set" +:+ LF)
    else
      fmt_Printf ("Cutting GA release, so resetting" +:+ LF) ;;
      err <- resetDev ;;
      match err with
      | Some err => fmt_Printf ("resetDev failed. Err: " +:+ Error err +:+ LF)
      | None =>
          err <- newRelease tag ;;
          match err with
          | Some err => fmt_Printf ("newRelease failed. Err: " +:+ Error err +:+ LF)
          | None => fmt_Printf ("Succeeded" +:+ LF)
          end
      end
  else
    fmt_Printf ("Cutting RC release, so bumping" +:+ LF) ;;
    err <- bumpDev ;;
    match err with
    | Some err => fmt_Printf ("bumpDev failed. Err: " +:+ Error err +:+ LF)
    | None => fmt_Printf ("Succeeded" +:+ LF)
    end.

End Program.

(** ** Two concrete environments, to run the model

    [quiet]: no system call fails.  [flat_yaml]: the one-key block mapping
    with a plain scalar, [version: dev.1] and a line feed, which is the YAML
    form of a struct whose one string field holds a tag such as [dev.1]; a
    document that does not have this form is an error. *)

Definition quiet : Faults :=
  {| open_fault := fun _ _ => None;
     write_fault := fun _ => None;
     read_fault := fun _ => None;
     close_fault := fun _ => None |}.

Fixpoint strip_prefix (p s : string) : option string :=
  match p, s with
  | "", _ => Some s
  | String a p', String b s' => if Ascii.eqb a b then strip_prefix p' s' else None
  | _, _ => None
  end.

Fixpoint strip_final_LF (s : string) : option string :=
  match s with
  | "" => None
  | String c r =>
      match r with
      | "" => if Ascii.eqb c (ascii_of_nat 10) then Some "" else None
      | _ => option_map (String c) (strip_final_LF r)
      end
  end.

Definition flat_yaml : YamlPackage :=
  {| Marshal := fun o => inl ("version: " +:+ Version_Version o +:+ LF);
     Unmarshal := fun y =>
       match strip_prefix "version: " y with
       | Some rest =>
           match strip_final_LF rest with
           | Some tag => inl {| Version_Version := tag |}
           | None => inr "yaml: unexpected end of document"
           end
       | None => inr "yaml: unsupported document"
       end |}.

(** A disk on which the new-version file cannot be opened. *)
Definition new_version_locked : Faults :=
  {| open_fault := fun path _ =>
       if String.eqb path NewVersionFullPathFilename
       then Some "permission denied" else None;
     write_fault := fun _ => None;
     read_fault := fun _ => None;
     close_fault := fun _ => None |}.

Definition world (fs : list (string * string)) : World :=
  {| files := list_to_map fs; stdout := [] |}.

(** ** Vocabulary of the properties *)

Fixpoint all_bytes (P : ascii -> bool) (s : string) : bool :=
  match s with
  | "" => true
  | String c r => P c && all_bytes P r
  end.

Definition dot_free (s : string) : bool :=
  all_bytes (fun c => negb (Ascii.eqb c ".")) s.

(** A decimal numeral: one digit or more. *)
Definition digits (s : string) : bool :=
  negb (String.eqb s "") && all_bytes isDigit s.

Fixpoint digits_value (acc : Z) (s : string) : Z :=
  match s with
  | "" => acc
  | String c r => digits_value (acc * 10 + (byte c - 48)) r
  end.

(** An integer written in decimal, of any size: an optional sign and a
    numeral.  [None] when [s] is not of that form. *)
Definition integer_literal (s : string) : option Z :=
  match s with
  | "" => None
  | String c r =>
      if Ascii.eqb c "+" then
        if digits r then Some (digits_value 0 r) else None
      else if Ascii.eqb c "-" then
        if digits r then Some (- digits_value 0 r) else None
      else if digits s then Some (digits_value 0 s) else None
  end.

(** ... and one that an [int] can hold. *)
Definition int_literal (s : string) : bool :=
  match integer_literal s with
  | Some v => (minInt <=? v) && (v <=? maxInt)
  | None => false
  end.

Definition fields (tag : string) : list string := strings_Split tag ".".

(** The tags the two parsers turn down: the wrong number of fields, or the
    one field they read as a number (the second) is not an [int]. *)
Definition malformedRelease (tag : string) : bool :=
  negb (Nat.eqb (length (fields tag)) 3) || negb (int_literal (nth 1 (fields tag) "")).

Definition malformedDev (tag : string) : bool :=
  negb (Nat.eqb (length (fields tag)) 2) || negb (int_literal (nth 1 (fields tag) "")).

(** The result of a computation, and the world it leaves. *)
Definition eval {A} (m : IO A) (w : World) : A := fst (m w).
Definition exec {A} (m : IO A) (w : World) : World := snd (m w).

(** No call made to write the file at [path] fails: the open with the
    flags both writers use, the write, the close. *)
Definition writable (io : Faults) (path : string) : Prop :=
  open_fault io path (Z.lor O_RDWR (Z.lor O_CREATE O_TRUNC)) = None /\
  write_fault io path = None /\
  close_fault io path = None.

(** No call made to read it fails. *)
Definition readable (io : Faults) (path : string) : Prop :=
  open_fault io path O_RDONLY = None /\ read_fault io path = None.

(** An error that is none of the package's own three. *)
Definition foreign (o : option error) : Prop :=
  match o with
  | None | Some (LibError _) => True
  | Some _ => False
  end.

(** The two errors of the nil checks. *)
Definition nil_check_error (o : option error) : bool :=
  match o with
  | Some ErrDataReaderFailed | Some ErrDataWriterFailed => true
  | _ => false
  end.

Definition error_of {A} (r : result A) : option error :=
  match r with
  | Ok _ => None
  | Err e => Some e
  end.

(** The YAML package gives back the tag it was given. *)
Definition round_trips (yaml : YamlPackage) (tag : string) : Prop :=
  exists bytes,
    Marshal yaml {| Version_Version := tag |} = inl bytes /\
    Unmarshal yaml bytes = inl {| Version_Version := tag |}.

(** What is on the console when [main] ran to its end. *)
Definition succeeded (w : World) : Prop :=
  last (stdout w) = Some ("Succeeded" +:+ LF).

(** ** More vocabulary: counting bytes, single faults *)

Fixpoint count_byte (c : ascii) (s : string) : nat :=
  match s with
  | "" => O
  | String a r => (if Ascii.eqb a c then 1 else 0) + count_byte c r
  end.

(** Environments with one kind of failing call on one path. *)
Definition open_fails (path msg : string) : Faults :=
  {| open_fault := fun p _ => if String.eqb p path then Some msg else None;
     write_fault := fun _ => None;
     read_fault := fun _ => None;
     close_fault := fun _ => None |}.

Definition write_fails (path : string) (n : nat) (msg : string) : Faults :=
  {| open_fault := fun _ _ => None;
     write_fault := fun p => if String.eqb p path then Some (n, msg) else None;
     read_fault := fun _ => None;
     close_fault := fun _ => None |}.


(** The open both writers make, and a write of the whole buffer, do not
    fail; the close may. *)
Definition opens_for_write (io : Faults) (path : string) : Prop :=
  open_fault io path (Z.lor O_RDWR (Z.lor O_CREATE O_TRUNC)) = None.

(** What the close of [path] returns. *)
Definition close_result (io : Faults) (path : string) : option error :=
  option_map (fun msg => LibError ("close" +:+ " " +:+ path +:+ ": " +:+ msg))
    (close_fault io path).

(** ** The model at work *)

Example Split_1_2_3 : strings_Split "1.2.3" "." = ["1"; "2"; "3"].
Proof. reflexivity. Qed.

Example Split_empty : strings_Split "" "." = [""].
Proof. reflexivity. Qed.

Example Split_trailing : strings_Split "dev." "." = ["dev"; ""].
Proof. reflexivity. Qed.

Example Atoi_42 : strconv_Atoi "42" = (42, None).
Proof. reflexivity. Qed.

Example Atoi_neg : strconv_Atoi "-7" = (-7, None).
Proof. reflexivity. Qed.

Example Atoi_maxInt : strconv_Atoi "9223372036854775807" = (maxInt, None).
Proof. reflexivity. Qed.

Example Atoi_minInt : strconv_Atoi "-9223372036854775808" = (minInt, None).
Proof. reflexivity. Qed.

Example Atoi_range : strconv_Atoi "9223372036854775808" = (maxInt, Some ErrRange).
Proof. reflexivity. Qed.

Example Atoi_syntax : strconv_Atoi "1x" = (0, Some ErrSyntax).
Proof. reflexivity. Qed.

Example Atoi_sign_only : strconv_Atoi "-" = (0, Some ErrSyntax).
Proof. reflexivity. Qed.

Example fmt_d_samples :
  fmt_d 0 = "0" /\ fmt_d 10 = "10" /\ fmt_d (-305) = "-305" /\
  fmt_d minInt = "-9223372036854775808".
Proof. repeat split; reflexivity. Qed.

Example Atoi_plus : strconv_Atoi "+5" = (5, None).
Proof. reflexivity. Qed.

Example wrap_int_maxInt : int_add maxInt 1 = minInt.
Proof. reflexivity. Qed.

(** The scenarios of the specification: [dev.5] becomes [dev.6], written
    in YAML form; a missing dev marker file stops the run before any
    write. *)
Example dev_5_becomes_dev_6 :
  let w' := exec (main flat_yaml quiet false "")
              (world [(DevFullPathFilename, "version: dev.5" +:+ LF)]) in
  files w' !! DevFullPathFilename = Some ("version: dev.6" +:+ LF) /\
  last (stdout w') = Some ("Succeeded" +:+ LF).
Proof. split; vm_compute; reflexivity. Qed.

Example missing_dev_file :
  let w' := exec (main flat_yaml quiet false "") (world []) in
  files w' = files (world []) /\
  last (stdout w') =
    Some ("bumpDev failed. Err: open hack/DEV_BUILD_VERSION.yaml: no such file or directory"
          +:+ LF).
Proof. split; vm_compute; reflexivity. Qed.

Example release_without_tag :
  exec (main flat_yaml quiet true "") (world []) =
    {| files := files (world []);
       stdout := ["Must supply -tag when -release is set" +:+ LF] |}.
Proof. reflexivity. Qed.

(** ** The library slice: splitting *)

Lemma Split_dot_free (s : string) :
  dot_free s = true -> strings_Split s "." = [s].
Proof.
  induction s as [|c r IH]; simpl; [reflexivity|].
  intros H. apply andb_prop in H as [Hc Hr].
  apply negb_true_iff in Hc. rewrite Hc, (IH Hr). reflexivity.
Qed.

Lemma Split_first_field (x r : string) :
  dot_free x = true ->
  strings_Split (x +:+ String "." r) "." = x :: strings_Split r ".".
Proof.
  induction x as [|c x IH]; simpl; [reflexivity|].
  intros H. apply andb_prop in H as [Hc Hx].
  apply negb_true_iff in Hc. rewrite Hc, (IH Hx). reflexivity.
Qed.

Lemma Split_two_fields (x n : string) :
  dot_free x = true -> dot_free n = true ->
  strings_Split (x +:+ "." +:+ n) "." = [x; n].
Proof.
  intros Hx Hn. change ("." +:+ n) with (String "." n).
  rewrite Split_first_field, Split_dot_free; auto.
Qed.

Lemma Split_three_fields (a n c : string) :
  dot_free a = true -> dot_free n = true -> dot_free c = true ->
  strings_Split (a +:+ "." +:+ n +:+ "." +:+ c) "." = [a; n; c].
Proof.
  intros Ha Hn Hc.
  change ("." +:+ n +:+ "." +:+ c) with (String "." (n +:+ String "." c)).
  rewrite !Split_first_field, Split_dot_free; auto.
Qed.

(** [Split] undoes joining with dots, and no field it returns has a dot:
    the two facts fix it. *)
Lemma Split_nonempty (s : string) : strings_Split s "." <> [].
Proof.
  destruct s as [|c r]; simpl; [discriminate|].
  destruct (Ascii.eqb c "."); [discriminate|].
  destruct (strings_Split r "."); discriminate.
Qed.

Lemma Split_concat (s : string) : String.concat "." (strings_Split s ".") = s.
Proof.
  induction s as [|c r IH]; [reflexivity|]. cbn [strings_Split].
  pose proof (Split_nonempty r) as Hne.
  destruct (Ascii.eqb_spec c ".") as [->|Hc].
  - destruct (strings_Split r ".") as [|f fs]; [congruence|].
    change (String.concat "." ("" :: f :: fs))
      with (String "." (String.concat "." (f :: fs))).
    rewrite IH. reflexivity.
  - destruct (strings_Split r ".") as [|f fs]; [congruence|].
    rewrite <- IH. destruct fs; reflexivity.
Qed.

Lemma Split_dot_free_fields (s : string) :
  Forall (fun f => dot_free f = true) (strings_Split s ".").
Proof.
  induction s as [|c r IH]; cbn [strings_Split].
  - repeat constructor.
  - destruct (Ascii.eqb c ".") eqn:Hc.
    + constructor; [reflexivity|exact IH].
    + destruct (strings_Split r ".") as [|f fs]; [repeat constructor; cbn; rewrite Hc; reflexivity|].
      inversion IH as [|? ? Hf Hfs]; subst. constructor; [|exact Hfs].
      unfold dot_free in *. cbn [all_bytes]. rewrite Hc, Hf. reflexivity.
Qed.

(** ** The library slice: numerals *)

Lemma isDigit_range (c : ascii) : isDigit c = true -> 0 <= byte c - 48 <= 9.
Proof.
  unfold isDigit. intros H. apply andb_prop in H as [H1 H2].
  apply Z.leb_le in H1, H2. lia.
Qed.

Lemma digits_value_ge (s : string) :
  forall n, 0 <= n -> all_bytes isDigit s = true -> n <= digits_value n s.
Proof.
  induction s as [|c r IH]; simpl; intros n Hn H; [lia|].
  apply andb_prop in H as [Hc Hr]. apply isDigit_range in Hc.
  specialize (IH (n * 10 + (byte c - 48)) ltac:(lia) Hr). lia.
Qed.

(** The three ways the digit loop ends. *)
Lemma parseUint_loop_cases (s : string) :
  forall n, 0 <= n <= maxUint64 ->
    (all_bytes isDigit s = true /\ digits_value n s <= maxUint64 /\
     parseUint_loop n s = (digits_value n s, None)) \/
    (parseUint_loop n s = (maxUint64, Some ErrRange) /\
     (all_bytes isDigit s = true -> maxUint64 < digits_value n s)) \/
    (parseUint_loop n s = (0, Some ErrSyntax) /\ all_bytes isDigit s = false).
Proof.
  induction s as [|c r IH]; simpl; intros n Hn.
  - left. repeat split; lia.
  - destruct (isDigit c) eqn:Hc; simpl; [|right; right; split; reflexivity].
    pose proof (isDigit_range c Hc) as Hd.
    assert (Hcut : maxUint64 / 10 + 1 = 1844674407370955162) by reflexivity.
    assert (Hmax : maxUint64 = 18446744073709551615) by reflexivity.
    rewrite Hcut.
    destruct (Z.leb_spec 1844674407370955162 n) as [Hbig|Hsmall].
    + right; left. split; [reflexivity|]. intros Hr.
      pose proof (digits_value_ge r (n * 10 + (byte c - 48)) ltac:(lia) Hr). lia.
    + destruct (Z.ltb_spec maxUint64 (n * 10 + (byte c - 48))) as [Hover|Hfit].
      * right; left. split; [reflexivity|]. intros Hr.
        pose proof (digits_value_ge r (n * 10 + (byte c - 48)) ltac:(lia) Hr). lia.
      * apply IH. lia.
Qed.

Lemma digits_nonempty (s : string) :
  digits s = true -> s <> "" /\ all_bytes isDigit s = true.
Proof.
  unfold digits. intros H. apply andb_prop in H as [H1 H2]. split; [|exact H2].
  intros ->. discriminate.
Qed.

Lemma ParseUint_digits (s : string) :
  digits s = true -> digits_value 0 s <= maxUint64 ->
  strconv_ParseUint s = (digits_value 0 s, None).
Proof.
  intros Hd Hv. apply digits_nonempty in Hd as [Hne Hall].
  destruct s as [|c r]; [congruence|]. unfold strconv_ParseUint.
  destruct (parseUint_loop_cases (String c r) 0 ltac:(unfold maxUint64; lia))
    as [(_ & _ & E)|[(_ & H)|(_ & H)]]; [exact E| |congruence].
  specialize (H Hall). lia.
Qed.

Lemma ParseUint_cases (s : string) :
  (digits s = true /\ digits_value 0 s <= maxUint64 /\
   strconv_ParseUint s = (digits_value 0 s, None)) \/
  strconv_ParseUint s = (maxUint64, Some ErrRange) \/
  strconv_ParseUint s = (0, Some ErrSyntax).
Proof.
  destruct s as [|c r]; [right; right; reflexivity|].
  unfold strconv_ParseUint.
  destruct (parseUint_loop_cases (String c r) 0 ltac:(unfold maxUint64; lia))
    as [(Hall & Hv & E)|[(E & _)|(E & _)]];
    [left; repeat split; auto|right; left; exact E|right; right; exact E].
Qed.

(** [Atoi] accepts exactly the decimal integers an [int] can hold, and
    returns their value. *)
Lemma Atoi_accepts (s : string) (v : Z) :
  integer_literal s = Some v -> minInt <= v <= maxInt ->
  strconv_Atoi s = (v, None).
Proof.
  assert (Hmax : maxUint64 = 18446744073709551615) by reflexivity.
  assert (Hmi : maxInt = 9223372036854775807) by reflexivity.
  assert (Hmn : minInt = -9223372036854775808) by reflexivity.
  assert (Hcut : 2 ^ (intSize - 1) = 9223372036854775808) by reflexivity.
  unfold strconv_Atoi, strconv_ParseInt, integer_literal.
  destruct s as [|c r]; [discriminate|].
  destruct (Ascii.eqb c "+") eqn:Hplus; [|destruct (Ascii.eqb c "-") eqn:Hminus].
  - destruct (digits r) eqn:Hd; [|discriminate]. intros [= <-] Hv.
    rewrite ParseUint_digits by (auto; lia). rewrite Hcut. cbn [negb andb].
    destruct (Z.leb_spec 9223372036854775808 (digits_value 0 r)); [lia|reflexivity].
  - destruct (digits r) eqn:Hd; [|discriminate]. intros [= <-] Hv.
    rewrite ParseUint_digits by (auto; lia). rewrite Hcut. cbn [negb andb].
    destruct (Z.ltb_spec 9223372036854775808 (digits_value 0 r)); [lia|reflexivity].
  - destruct (digits (String c r)) eqn:Hd; [|discriminate]. intros [= <-] Hv.
    change (digits_value (0 * 10 + (byte c - 48)) r)
      with (digits_value 0 (String c r)) in *.
    rewrite ParseUint_digits by (auto; lia). rewrite Hcut. cbn [negb andb].
    destruct (Z.leb_spec 9223372036854775808 (digits_value 0 (String c r)));
      [lia|reflexivity].
Qed.

Lemma Atoi_rejects (s : string) :
  snd (strconv_Atoi s) = None -> int_literal s = true.
Proof.
  assert (Hmax : maxUint64 = 18446744073709551615) by reflexivity.
  assert (Hmi : maxInt = 9223372036854775807) by reflexivity.
  assert (Hmn : minInt = -9223372036854775808) by reflexivity.
  assert (Hcut : 2 ^ (intSize - 1) = 9223372036854775808) by reflexivity.
  unfold strconv_Atoi, strconv_ParseInt, int_literal, integer_literal.
  destruct s as [|c r]; [discriminate|].
  destruct (Ascii.eqb c "+") eqn:Hplus; [|destruct (Ascii.eqb c "-") eqn:Hminus].
  - destruct (ParseUint_cases r) as [(Hd & Hv & E)|[E|E]]; rewrite E, ?Hcut; cbn [negb andb snd];
      try discriminate.
    rewrite Hd.
    destruct (Z.leb_spec 9223372036854775808 (digits_value 0 r)); [discriminate|].
    intros _. apply digits_nonempty in Hd as [_ Hall].
    pose proof (digits_value_ge r 0 ltac:(lia) Hall).
    apply andb_true_intro. split; [apply Z.leb_le|apply Z.leb_le]; lia.
  - destruct (ParseUint_cases r) as [(Hd & Hv & E)|[E|E]]; rewrite E, ?Hcut; cbn [negb andb snd];
      try discriminate.
    rewrite Hd.
    destruct (Z.ltb_spec 9223372036854775808 (digits_value 0 r)); [discriminate|].
    intros _. apply digits_nonempty in Hd as [_ Hall].
    pose proof (digits_value_ge r 0 ltac:(lia) Hall).
    apply andb_true_intro. split; [apply Z.leb_le|apply Z.leb_le]; lia.
  - destruct (ParseUint_cases (String c r)) as [(Hd & Hv & E)|[E|E]];
      rewrite E, ?Hcut; cbn [negb andb snd]; try discriminate.
    rewrite Hd.
    destruct (Z.leb_spec 9223372036854775808 (digits_value 0 (String c r)));
      [discriminate|].
    intros _. apply digits_nonempty in Hd as [_ Hall].
    pose proof (digits_value_ge (String c r) 0 ltac:(lia) Hall).
    apply andb_true_intro. split; [apply Z.leb_le|apply Z.leb_le]; lia.
Qed.

(** ** The library slice: printing a number and reading it back *)

Lemma byte_digitChar (d : Z) : 0 <= d <= 9 -> byte (digitChar d) = 48 + d.
Proof.
  intros Hd. unfold byte, digitChar.
  rewrite N_ascii_embedding by lia. lia.
Qed.

Lemma isDigit_digitChar (d : Z) : 0 <= d <= 9 -> isDigit (digitChar d) = true.
Proof.
  intros Hd. unfold isDigit. rewrite byte_digitChar by exact Hd.
  apply andb_true_intro. split; apply Z.leb_le; lia.
Qed.

Lemma all_bytes_impl (P Q : ascii -> bool) (s : string) :
  (forall c, P c = true -> Q c = true) ->
  all_bytes P s = true -> all_bytes Q s = true.
Proof.
  intros HPQ. induction s as [|c r IH]; simpl; [reflexivity|].
  intros H. apply andb_prop in H as [Hc Hr].
  rewrite (HPQ c Hc), (IH Hr). reflexivity.
Qed.

Lemma fmt_digits_all (fuel : nat) :
  forall n acc, 0 <= n -> all_bytes isDigit acc = true ->
    all_bytes isDigit (fmt_digits fuel n acc) = true.
Proof.
  induction fuel as [|fuel IH]; simpl; intros n acc Hn Hacc; [exact Hacc|].
  assert (Hc : all_bytes isDigit (String (digitChar (n mod 10)) acc) = true).
  { simpl. rewrite isDigit_digitChar, Hacc; [reflexivity|].
    pose proof (Z.mod_pos_bound n 10). lia. }
  destruct (n <? 10); [exact Hc|].
  apply IH; [apply Z.div_pos; lia|exact Hc].
Qed.

Lemma fmt_digits_nonempty (fuel : nat) :
  forall n acc, acc <> "" -> fmt_digits fuel n acc <> "".
Proof.
  induction fuel as [|fuel IH]; simpl; intros n acc Hacc; [exact Hacc|].
  destruct (n <? 10); [discriminate|]. apply IH. discriminate.
Qed.

Lemma fmt_digits_value (fuel : nat) :
  forall n acc, 0 <= n < 2 ^ Z.of_nat fuel ->
    digits_value 0 (fmt_digits fuel n acc) = digits_value n acc.
Proof.
  induction fuel as [|fuel IH]; intros n acc Hn.
  - simpl in *. replace n with 0 by lia. reflexivity.
  - cbn [fmt_digits]. pose proof (Z.mod_pos_bound n 10 ltac:(lia)) as Hm.
    destruct (Z.ltb_spec n 10) as [Hlt|Hge].
    + cbn [digits_value]. rewrite byte_digitChar by lia.
      rewrite Z.mod_small by lia. f_equal. lia.
    + rewrite IH.
      * cbn [digits_value]. rewrite byte_digitChar by lia. f_equal.
        pose proof (Z.div_mod n 10 ltac:(lia)). lia.
      * rewrite Nat2Z.inj_succ, Z.pow_succ_r in Hn by lia.
        split; [apply Z.div_pos; lia|].
        apply Z.div_lt_upper_bound; lia.
Qed.

Lemma fuel_enough (n : Z) :
  0 <= n -> 0 <= n < 2 ^ Z.of_nat (S (Z.to_nat (Z.log2 n))).
Proof.
  intros Hn. split; [exact Hn|].
  rewrite Nat2Z.inj_succ, Z2Nat.id by apply Z.log2_nonneg.
  destruct (Z.eq_dec n 0) as [->|Hz]; [reflexivity|].
  apply Z.log2_spec. lia.
Qed.

Lemma digits_fmt_digits (n : Z) :
  0 <= n ->
  let s := fmt_digits (S (Z.to_nat (Z.log2 n))) n "" in
  digits s = true /\ digits_value 0 s = n.
Proof.
  intros Hn s. split.
  - unfold digits. apply andb_true_intro. split.
    + apply negb_true_iff, String.eqb_neq. subst s. cbn [fmt_digits].
      destruct (n <? 10); [discriminate|].
      apply fmt_digits_nonempty. discriminate.
    + apply fmt_digits_all; [exact Hn|reflexivity].
  - subst s. rewrite fmt_digits_value by (apply fuel_enough; exact Hn).
    reflexivity.
Qed.

Lemma digit_not_sign (c : ascii) :
  isDigit c = true -> Ascii.eqb c "+" = false /\ Ascii.eqb c "-" = false.
Proof.
  intros Hc. split; apply Ascii.eqb_neq; intros ->; discriminate.
Qed.

(** [%d] prints the decimal literal of the number. *)
Lemma integer_literal_fmt_d (n : Z) : integer_literal (fmt_d n) = Some n.
Proof.
  unfold fmt_d. destruct (Z.ltb_spec n 0) as [Hneg|Hpos].
  - destruct (digits_fmt_digits (- n) ltac:(lia)) as [Hd Hv].
    unfold integer_literal. cbn [Ascii.eqb Bool.eqb].
    rewrite Hd, Hv. f_equal. lia.
  - destruct (digits_fmt_digits n Hpos) as [Hd Hv].
    unfold integer_literal.
    destruct (fmt_digits (S (Z.to_nat (Z.log2 n))) n "") as [|c r] eqn:E;
      [discriminate|].
    pose proof (digits_nonempty _ Hd) as [_ Hall]. simpl in Hall.
    apply andb_prop in Hall as [Hc _].
    destruct (digit_not_sign c Hc) as [-> ->]. rewrite Hd, Hv. reflexivity.
Qed.

Lemma Atoi_fmt_d (n : Z) :
  minInt <= n <= maxInt -> strconv_Atoi (fmt_d n) = (n, None).
Proof.
  intros Hn. apply Atoi_accepts; [apply integer_literal_fmt_d|exact Hn].
Qed.

Lemma dot_free_fmt_d (n : Z) : dot_free (fmt_d n) = true.
Proof.
  assert (Hdig : forall c, isDigit c = true -> negb (Ascii.eqb c ".") = true).
  { intros c Hc. apply negb_true_iff, Ascii.eqb_neq. intros ->. discriminate. }
  unfold fmt_d, dot_free. destruct (Z.ltb_spec n 0) as [Hneg|Hpos].
  - cbn [all_bytes]. apply andb_true_intro. split; [reflexivity|].
    apply (all_bytes_impl isDigit); [exact Hdig|].
    apply fmt_digits_all; [lia|reflexivity].
  - apply (all_bytes_impl isDigit); [exact Hdig|].
    apply fmt_digits_all; [lia|reflexivity].
Qed.

(** [%d] prints no leading zero. *)
Lemma fmt_digits_leading (fuel : nat) :
  forall n acc, 0 < n < 2 ^ Z.of_nat fuel ->
    exists c r, fmt_digits fuel n acc = String c r /\ c <> "0"%char.
Proof.
  induction fuel as [|fuel IH]; intros n acc Hn.
  - simpl in Hn. lia.
  - cbn [fmt_digits]. destruct (Z.ltb_spec n 10) as [Hlt|Hge].
    + eexists _, _. split; [reflexivity|].
      rewrite Z.mod_small by lia. intros Hc.
      apply (f_equal byte) in Hc. rewrite byte_digitChar in Hc by lia.
      change (byte "0") with 48 in Hc. lia.
    + apply IH. rewrite Nat2Z.inj_succ, Z.pow_succ_r in Hn by lia.
      split; [apply Z.div_str_pos; lia|apply Z.div_lt_upper_bound; lia].
Qed.

Lemma fmt_d_canonical (n : Z) :
  0 < n -> exists c r, fmt_d n = String c r /\ c <> "0"%char.
Proof.
  intros Hn. unfold fmt_d. destruct (Z.ltb_spec n 0); [lia|].
  apply fmt_digits_leading. split; [exact Hn|]. apply fuel_enough. lia.
Qed.

Lemma wrap_int_id (z : Z) : minInt <= z <= maxInt -> wrap_int z = z.
Proof.
  unfold wrap_int, minInt, maxInt. intros Hz.
  change (2 ^ (intSize - 1)) with 9223372036854775808 in *.
  change (2 ^ intSize) with 18446744073709551616.
  rewrite Z.mod_small by lia. lia.
Qed.

(** ** The file layer *)

(** Every operation but [bufio.Write] is unfolded to the oracle and the
    file map. *)
Ltac io_unfold :=
  unfold eval, exec, saveDev, saveRelease, getTag, resetDev, bufio_Flush,
    bufio_NewWriter, bufio_NewReader, io_ReadAll, File_Write, File_Close,
    os_OpenFile, yaml_Marshal, yaml_Unmarshal, fmt_Printf, put_file, PathError,
    bind, ret.

Lemma paths_differ : DevFullPathFilename <> NewVersionFullPathFilename.
Proof. discriminate. Qed.

Lemma str_drop_all (s : string) : str_drop (String.length s) s = "".
Proof.
  unfold str_drop. rewrite Nat.sub_diag.
  induction s as [|c s IH]; [reflexivity|exact IH].
Qed.

Lemma len_0 (s : string) : len s = 0 -> s = "".
Proof. destruct s; [reflexivity|]. unfold len. simpl. lia. Qed.

Lemma OpenFile_truncates io (name : string) (perm : Z) (w : World) :
  open_fault io name (Z.lor O_RDWR (Z.lor O_CREATE O_TRUNC)) = None ->
  os_OpenFile io name (Z.lor O_RDWR (Z.lor O_CREATE O_TRUNC)) perm w =
    (Ok {| file_name := name |},
     {| files := <[name := ""]> (files w); stdout := stdout w |}).
Proof.
  intros Ho. unfold os_OpenFile. rewrite Ho.
  destruct (files w !! name); reflexivity.
Qed.

(** One [Write] on a fresh writer: what does not fit the buffer goes
    straight to the file, the rest waits in the buffer. *)
Lemma Write_fresh io (f : File) (p : string) (w : World) :
  bufio_Write io {| wr := f; buf := ""; werr := None |} p w =
    if defaultBufSize <? len p then
      let r := File_Write io f p w in
      match snd (fst r) with
      | Some e => ({| wr := f; buf := ""; werr := Some e |}, Some e, snd r)
      | None => ({| wr := f; buf := ""; werr := None |}, None, snd r)
      end
    else ({| wr := f; buf := p; werr := None |}, None, w).
Proof.
  set (b0 := {| wr := f; buf := ""; werr := None |}).
  assert (Hav : forall q,
    (Available b0 <? len q) && isNil (werr b0) = (defaultBufSize <? len q)).
  { intros q. unfold Available. cbn [b0 buf werr isNil].
    change (len "") with 0. rewrite Z.sub_0_r, andb_true_r. reflexivity. }
  unfold bufio_Write, write_turn, bind, ret. rewrite Hav.
  change (Buffered b0 =? 0) with true. cbv iota.
  destruct (defaultBufSize <? len p) eqn:Hbig.
  - unfold write_through, File_Write, put_file, bind, ret. cbn [b0 wr buf].
    destruct (write_fault io (file_name f)) as [[n msg]|]; cbn [fst snd].
    + cbn [werr isNil]. rewrite andb_false_r. reflexivity.
    + rewrite str_drop_all. fold b0. rewrite Hav. reflexivity.
  - cbn [fst snd]. rewrite Hav, Hbig. reflexivity.
Qed.

(** A write and a flush with no fault leave exactly the bytes written in
    a file that was just truncated. *)
Lemma Write_Flush_ok io (f : File) (p : string) (w : World) :
  write_fault io (file_name f) = None ->
  files w !! file_name f = Some "" ->
  exists b w1 w2,
    bufio_Write io {| wr := f; buf := ""; werr := None |} p w = (b, None, w1) /\
    snd (bufio_Flush io b w1) = w2 /\
    files w2 = <[file_name f := p]> (files w) /\ stdout w2 = stdout w.
Proof.
  intros Hw Hf. rewrite Write_fresh.
  destruct (defaultBufSize <? len p).
  - unfold File_Write, put_file, bind, ret. rewrite Hw, Hf. simpl.
    eexists _, _, _. split; [reflexivity|]. split; [reflexivity|].
    split; reflexivity.
  - eexists _, _, _. split; [reflexivity|]. split; [reflexivity|].
    unfold bufio_Flush, Buffered. cbn [werr buf wr].
    destruct (len p =? 0) eqn:Hp.
    + apply Z.eqb_eq, len_0 in Hp. subst p. simpl. split; [|reflexivity].
      symmetry. apply insert_id. exact Hf.
    + unfold File_Write, put_file, bind, ret. rewrite Hw, Hf. simpl.
      split; reflexivity.
Qed.

(** Going through an operation branch by branch; the one [Write] each
    writer makes is on a fresh writer. *)
Ltac io_cases :=
  io_unfold;
  repeat (first [rewrite Write_fresh; unfold File_Write, put_file, bind, ret
                | case_match];
          simplify_eq/=).

(** ** The two writers *)

Lemma saveRelease_ok io (version : string) (w : World) :
  writable io NewVersionFullPathFilename ->
  exists w',
    saveRelease io version w = (None, w') /\
    files w' = <[NewVersionFullPathFilename := version]> (files w).
Proof.
  intros (Ho & Hw & Hc). unfold saveRelease, bind.
  rewrite OpenFile_truncates by exact Ho. cbn [bufio_NewWriter].
  destruct (Write_Flush_ok io {| file_name := NewVersionFullPathFilename |} version
              {| files := <[NewVersionFullPathFilename := ""]> (files w);
                 stdout := stdout w |} Hw (lookup_insert_eq _ _ _))
    as (b & w1 & w2 & EW & EF & Hfiles & _).
  rewrite EW. cbn [fst snd].
  destruct (bufio_Flush io b w1) as [r w2'].
  cbn [snd] in EF. subst w2'. unfold File_Close. cbn [file_name]. rewrite Hc.
  exists w2. split; [reflexivity|].
  rewrite Hfiles. cbn [files file_name]. apply insert_insert_eq.
Qed.

Lemma saveDev_ok yaml io (tag bytes : string) (w : World) :
  Marshal yaml {| Version_Version := tag |} = inl bytes ->
  writable io DevFullPathFilename ->
  exists w',
    saveDev yaml io tag w = (None, w') /\
    files w' = <[DevFullPathFilename := bytes]> (files w).
Proof.
  intros Hm (Ho & Hw & Hc). unfold saveDev, yaml_Marshal, bind.
  rewrite Hm. unfold fmt_Printf. cbn [fst snd].
  rewrite OpenFile_truncates by exact Ho. cbn [bufio_NewWriter].
  match goal with
  | |- context [bufio_Write io _ bytes ?w0] =>
      destruct (Write_Flush_ok io {| file_name := DevFullPathFilename |} bytes
                  w0 Hw (lookup_insert_eq _ _ _))
        as (b & w1 & w2 & EW & EF & Hfiles & _)
  end.
  rewrite EW. cbn [fst snd].
  destruct (bufio_Flush io b w1) as [r w2'].
  cbn [snd] in EF. subst w2'. unfold File_Close. cbn [file_name]. rewrite Hc.
  exists w2. split; [reflexivity|].
  rewrite Hfiles. cbn [files file_name]. apply insert_insert_eq.
Qed.

Lemma saveRelease_foreign io (version : string) (w : World) :
  foreign (eval (saveRelease io version) w).
Proof. io_cases; exact I. Qed.

Lemma saveDev_foreign yaml io (tag : string) (w : World) :
  foreign (eval (saveDev yaml io tag) w).
Proof. io_cases; exact I. Qed.

Lemma saveDev_frame yaml io (tag : string) (w : World) (p : string) :
  p <> DevFullPathFilename ->
  files (exec (saveDev yaml io tag) w) !! p = files w !! p.
Proof.
  intros Hp. io_cases; rewrite ?lookup_insert_ne by congruence; reflexivity.
Qed.

Lemma saveRelease_frame io (version : string) (w : World) (p : string) :
  p <> NewVersionFullPathFilename ->
  files (exec (saveRelease io version) w) !! p = files w !! p.
Proof.
  intros Hp. io_cases; rewrite ?lookup_insert_ne by congruence; reflexivity.
Qed.

(** ** The reader *)

Lemma getTag_files yaml io (w : World) :
  files (exec (getTag yaml io) w) = files w.
Proof. io_cases; reflexivity. Qed.

Lemma getTag_foreign yaml io (w : World) :
  foreign (error_of (eval (getTag yaml io) w)).
Proof. io_cases; exact I. Qed.

Lemma getTag_ok yaml io (w : World) (bytes : string) (o : Version) :
  readable io DevFullPathFilename ->
  files w !! DevFullPathFilename = Some bytes ->
  Unmarshal yaml bytes = inl o ->
  eval (getTag yaml io) w = Ok (Version_Version o).
Proof.
  intros (Ho & Hr) Hf Hu. io_unfold. rewrite Ho, Hf. simpl.
  rewrite Hr, Hf. simpl. rewrite Hu. reflexivity.
Qed.

(** ** The two increments *)

Lemma Atoi_literal (s : string) :
  snd (strconv_Atoi s) = None <-> int_literal s = true.
Proof.
  split; [apply Atoi_rejects|].
  unfold int_literal. destruct (integer_literal s) as [v|] eqn:E; [|discriminate].
  intros H. apply andb_prop in H as [H1 H2]. apply Z.leb_le in H1, H2.
  rewrite (Atoi_accepts s v E) by lia. reflexivity.
Qed.

Lemma isDigit_not_dot (c : ascii) :
  isDigit c = true -> negb (Ascii.eqb c ".") = true.
Proof.
  intros Hc. apply negb_true_iff, Ascii.eqb_neq. intros ->. discriminate.
Qed.

Lemma digits_dot_free (s : string) : digits s = true -> dot_free s = true.
Proof.
  intros H. apply digits_nonempty in H as [_ H].
  exact (all_bytes_impl isDigit _ s isDigit_not_dot H).
Qed.

Lemma integer_literal_dot_free (s : string) (v : Z) :
  integer_literal s = Some v -> dot_free s = true.
Proof.
  unfold integer_literal. destruct s as [|c r]; [discriminate|].
  destruct (Ascii.eqb_spec c "+") as [->|Hp];
    [|destruct (Ascii.eqb_spec c "-") as [->|Hm]].
  - destruct (digits r) eqn:Hd; [|discriminate]. intros _.
    unfold dot_free. cbn [all_bytes]. apply digits_dot_free in Hd. exact Hd.
  - destruct (digits r) eqn:Hd; [|discriminate]. intros _.
    unfold dot_free. cbn [all_bytes]. apply digits_dot_free in Hd. exact Hd.
  - destruct (digits (String c r)) eqn:Hd; [|discriminate]. intros _.
    apply digits_dot_free. exact Hd.
Qed.

Lemma digits_integer_literal (s : string) :
  digits s = true -> integer_literal s = Some (digits_value 0 s).
Proof.
  intros Hd. destruct (digits_nonempty s Hd) as [Hne Hall].
  destruct s as [|c r]; [congruence|]. unfold integer_literal.
  cbn [all_bytes] in Hall. apply andb_prop in Hall as [Hc _].
  destruct (digit_not_sign c Hc) as [-> ->]. rewrite Hd. reflexivity.
Qed.

Lemma count_eqb (n : nat) (k : Z) (m : nat) :
  k = Z.of_nat m -> (Z.of_nat n =? k) = Nat.eqb n m.
Proof.
  intros ->. destruct (Z.eqb_spec (Z.of_nat n) (Z.of_nat m)) as [E|E];
    destruct (Nat.eqb_spec n m) as [E'|E']; try reflexivity; lia.
Qed.

Lemma incrementDev_files (tag : string) (w : World) :
  files (exec (incrementDev tag) w) = files w.
Proof.
  unfold exec, incrementDev, bind, ret, fmt_Printf.
  destruct (negb _); [reflexivity|].
  destruct (strconv_Atoi _) as [ver [e|]]; reflexivity.
Qed.

Lemma incrementRelease_files (tag : string) (w : World) :
  files (exec (incrementRelease tag) w) = files w.
Proof.
  unfold exec, incrementRelease, bind, ret, fmt_Printf.
  destruct (negb _); [reflexivity|].
  destruct (strconv_Atoi _) as [ver [e|]]; reflexivity.
Qed.

(** What [incrementDev] returns, for every tag. *)
Lemma incrementDev_eval (tag : string) (w : World) :
  eval (incrementDev tag) w =
    if malformedDev tag then Err ErrInvalidVersionFormat
    else Ok ("dev." +:+
             fmt_d (int_add (fst (strconv_Atoi (nth 1 (fields tag) ""))) 1)).
Proof.
  unfold eval, incrementDev, malformedDev, fields, bind, ret, fmt_Printf.
  rewrite (count_eqb _ NumberOfSeparatorsInDevTag 2) by reflexivity.
  destruct (Nat.eqb _ 2); cbn [negb orb]; [|reflexivity].
  pose proof (Atoi_literal (nth 1 (strings_Split tag ".") "")) as Hlit.
  destruct (strconv_Atoi _) as [ver [e|]]; cbn [fst snd] in *.
  - destruct (int_literal _); [|reflexivity].
    destruct Hlit as [_ Hlit]. discriminate (Hlit eq_refl).
  - destruct Hlit as [Hlit _]. rewrite (Hlit eq_refl). reflexivity.
Qed.

Lemma incrementRelease_eval (tag : string) (w : World) :
  eval (incrementRelease tag) w =
    if malformedRelease tag then Err ErrInvalidVersionFormat
    else Ok (nth 0 (fields tag) "" +:+ "." +:+
             fmt_d (int_add (fst (strconv_Atoi (nth 1 (fields tag) ""))) 1) +:+
             ".0").
Proof.
  unfold eval, incrementRelease, malformedRelease, fields, bind, ret, fmt_Printf.
  rewrite (count_eqb _ NumberOfSemVerSeparators 3) by reflexivity.
  destruct (Nat.eqb _ 3); cbn [negb orb]; [|reflexivity].
  pose proof (Atoi_literal (nth 1 (strings_Split tag ".") "")) as Hlit.
  destruct (strconv_Atoi _) as [ver [e|]]; cbn [fst snd] in *.
  - destruct (int_literal _); [|reflexivity].
    destruct Hlit as [_ Hlit]. discriminate (Hlit eq_refl).
  - destruct Hlit as [Hlit _]. rewrite (Hlit eq_refl). reflexivity.
Qed.

Lemma int_literal_in_range (s : string) (v : Z) :
  integer_literal s = Some v -> minInt <= v <= maxInt -> int_literal s = true.
Proof.
  intros E Hv. unfold int_literal. rewrite E.
  apply andb_true_intro. split; apply Z.leb_le; lia.
Qed.

Lemma int_literal_integer (s : string) :
  int_literal s = true ->
  exists v, integer_literal s = Some v /\ minInt <= v <= maxInt.
Proof.
  unfold int_literal. destruct (integer_literal s) as [v|]; [|discriminate].
  intros H. apply andb_prop in H as [H1 H2]. apply Z.leb_le in H1, H2.
  exists v. split; [reflexivity|lia].
Qed.

Lemma Atoi_dot_free (s : string) (n : Z) :
  strconv_Atoi s = (n, None) -> dot_free s = true.
Proof.
  intros E. assert (H : snd (strconv_Atoi s) = None) by (rewrite E; reflexivity).
  apply Atoi_literal, int_literal_integer in H as (v & Hv & _).
  exact (integer_literal_dot_free s v Hv).
Qed.

(** The dev increment on any two fields of which [Atoi] accepts the
    second: the number printed is the [int] sum, wrap-around included. *)
Lemma incrementDev_accepted (x s : string) (n : Z) (w : World) :
  dot_free x = true -> strconv_Atoi s = (n, None) ->
  eval (incrementDev (x +:+ "." +:+ s)) w = Ok ("dev." +:+ fmt_d (int_add n 1)).
Proof.
  intros Hx Hs. rewrite incrementDev_eval. unfold malformedDev, fields.
  rewrite Split_two_fields by eauto using Atoi_dot_free.
  cbn [length nth Nat.eqb negb orb].
  assert (Hlit : int_literal s = true) by (apply Atoi_literal; rewrite Hs; reflexivity).
  rewrite Hlit, Hs. reflexivity.
Qed.

(** The release increment on any three fields of which [Atoi] accepts the
    second. *)
Lemma incrementRelease_accepted (a s c : string) (n : Z) (w : World) :
  dot_free a = true -> dot_free c = true -> strconv_Atoi s = (n, None) ->
  eval (incrementRelease (a +:+ "." +:+ s +:+ "." +:+ c)) w =
    Ok (a +:+ "." +:+ fmt_d (int_add n 1) +:+ ".0").
Proof.
  intros Ha Hc Hs. rewrite incrementRelease_eval. unfold malformedRelease, fields.
  rewrite Split_three_fields by eauto using Atoi_dot_free.
  cbn [length nth Nat.eqb negb orb].
  assert (Hlit : int_literal s = true) by (apply Atoi_literal; rewrite Hs; reflexivity).
  rewrite Hlit, Hs. reflexivity.
Qed.

(** ... and when the second field is below the largest [int], the sum is
    the successor. *)
Lemma incrementDev_second_field (x s : string) (v : Z) (w : World) :
  dot_free x = true ->
  integer_literal s = Some v -> minInt <= v < maxInt ->
  eval (incrementDev (x +:+ "." +:+ s)) w = Ok ("dev." +:+ fmt_d (v + 1)).
Proof.
  intros Hx Hs Hv.
  rewrite (incrementDev_accepted x s v) by (auto; apply Atoi_accepts; auto; lia).
  unfold int_add. rewrite wrap_int_id by lia. reflexivity.
Qed.

Lemma incrementRelease_second_field (a s c : string) (v : Z) (w : World) :
  dot_free a = true -> dot_free c = true ->
  integer_literal s = Some v -> minInt <= v < maxInt ->
  eval (incrementRelease (a +:+ "." +:+ s +:+ "." +:+ c)) w =
    Ok (a +:+ "." +:+ fmt_d (v + 1) +:+ ".0").
Proof.
  intros Ha Hc Hs Hv.
  rewrite (incrementRelease_accepted a s c v) by (auto; apply Atoi_accepts; auto; lia).
  unfold int_add. rewrite wrap_int_id by lia. reflexivity.
Qed.

(** The tag one run writes is a tag the next run accepts: the dev counter
    printed by [%d] is read back as the same number. *)
Lemma incrementDev_canonical (N : Z) (w : World) :
  0 <= N < maxInt ->
  eval (incrementDev ("dev." +:+ fmt_d N)) w = Ok ("dev." +:+ fmt_d (N + 1)).
Proof.
  intros HN. apply (incrementDev_second_field "dev" (fmt_d N) N w);
    [reflexivity|apply integer_literal_fmt_d|].
  unfold minInt. change (2 ^ (intSize - 1)) with 9223372036854775808. lia.
Qed.

(** The first field plays no part in the dev increment: two tags that
    differ only there get the same answer and the same console output. *)
Lemma incrementDev_first_field_unused (x y rest : string) (w : World) :
  dot_free x = true -> dot_free y = true ->
  incrementDev (x +:+ "." +:+ rest) w = incrementDev (y +:+ "." +:+ rest) w.
Proof.
  intros Hx Hy. unfold incrementDev.
  change ("." +:+ rest) with (String "." rest).
  rewrite !Split_first_field by assumption. reflexivity.
Qed.

(** The last field plays no part in the release increment. *)
Lemma incrementRelease_last_field_unused (a s c c' : string) (w : World) :
  dot_free a = true -> dot_free s = true ->
  dot_free c = true -> dot_free c' = true ->
  incrementRelease (a +:+ "." +:+ s +:+ "." +:+ c) w =
  incrementRelease (a +:+ "." +:+ s +:+ "." +:+ c') w.
Proof.
  intros Ha Hs Hc Hc'. unfold incrementRelease.
  rewrite !Split_three_fields by assumption. reflexivity.
Qed.

(** Closed facts are settled by running the model. *)
Ltac by_computation :=
  vm_compute; first [reflexivity | discriminate | congruence].

(** ** The claims about the two increments *)

(** C3, amended.  For every dev tag [dev.N] with [N] a non-negative
    integer written in decimal and [N + 1] still an [int]
    ([N < maxInt = 2^63 - 1]), [incrementDev] succeeds and returns exactly
    [dev.(N+1)]. *)
Theorem incrementDev_valid_tag (N : Z) (s : string) (w : World) :
  digits s = true -> digits_value 0 s = N -> N < maxInt ->
  eval (incrementDev ("dev." +:+ s)) w = Ok ("dev." +:+ fmt_d (N + 1)).
Proof.
  intros Hd HN Hlt.
  destruct (digits_nonempty s Hd) as [_ Hall].
  pose proof (digits_value_ge s 0 ltac:(lia) Hall) as Hge.
  apply (incrementDev_second_field "dev" s N w); [reflexivity| |].
  - rewrite <- HN. apply digits_integer_literal. exact Hd.
  - unfold minInt. change (2 ^ (intSize - 1)) with 9223372036854775808. lia.
Qed.

Lemma incrementDev_valid_tag_witness :
  digits "5" = true /\ digits_value 0 "5" = 5 /\ 5 < maxInt /\
  eval (incrementDev ("dev." +:+ "5")) (world []) = Ok ("dev." +:+ fmt_d (5 + 1)).
Proof.
  do 3 (split; [reflexivity|]).
  apply (incrementDev_valid_tag 5 "5" (world [])); reflexivity.
Defined.

(** C3 as stated fails where [N + 1] leaves [int]: at [N = 2^63 - 1] the
    sum wraps around and the tag returned carries a negative number; one
    further, the tag is turned down. *)
Lemma dev_tag_wraps_at_maxInt :
  digits "9223372036854775807" = true /\
  0 <= digits_value 0 "9223372036854775807" /\
  eval (incrementDev "dev.9223372036854775807") (world []) =
    Ok "dev.-9223372036854775808" /\
  eval (incrementDev "dev.9223372036854775807") (world []) <>
    Ok ("dev." +:+ fmt_d (digits_value 0 "9223372036854775807" + 1)) /\
  digits "9223372036854775808" = true /\
  eval (incrementDev "dev.9223372036854775808") (world []) =
    Err ErrInvalidVersionFormat.
Proof.
  repeat split; by_computation.
Qed.

(** C4, amended.  For every release tag [MAJOR.MINOR.PATCH] of three
    decimal numerals with [MINOR + 1] still an [int], [incrementRelease]
    succeeds and returns exactly [MAJOR.(MINOR+1).0]: [MAJOR] as it was
    written, [MINOR] plus one, [PATCH] replaced by 0. *)
Theorem incrementRelease_valid_tag
    (major minor patch : string) (N : Z) (w : World) :
  digits major = true -> digits minor = true -> digits patch = true ->
  digits_value 0 minor = N -> N < maxInt ->
  eval (incrementRelease (major +:+ "." +:+ minor +:+ "." +:+ patch)) w =
    Ok (major +:+ "." +:+ fmt_d (N + 1) +:+ ".0").
Proof.
  intros Hmaj Hmin Hpat HN Hlt.
  destruct (digits_nonempty minor Hmin) as [_ Hall].
  pose proof (digits_value_ge minor 0 ltac:(lia) Hall) as Hge.
  apply incrementRelease_second_field; auto using digits_dot_free.
  - rewrite <- HN. apply digits_integer_literal. exact Hmin.
  - unfold minInt. change (2 ^ (intSize - 1)) with 9223372036854775808. lia.
Qed.

Lemma incrementRelease_valid_tag_witness :
  digits "1" = true /\ digits "2" = true /\ digits "3" = true /\
  digits_value 0 "2" = 2 /\ 2 < maxInt /\
  eval (incrementRelease ("1" +:+ "." +:+ "2" +:+ "." +:+ "3")) (world []) =
    Ok ("1" +:+ "." +:+ fmt_d (2 + 1) +:+ ".0").
Proof.
  do 5 (split; [reflexivity|]).
  apply (incrementRelease_valid_tag "1" "2" "3" 2 (world [])); reflexivity.
Defined.

(** C4 as stated fails where [MINOR + 1] leaves [int]. *)
Lemma release_tag_wraps_at_maxInt :
  digits "1" = true /\ digits "9223372036854775807" = true /\ digits "3" = true /\
  eval (incrementRelease "1.9223372036854775807.3") (world []) =
    Ok "1.-9223372036854775808.0" /\
  eval (incrementRelease "1.9223372036854775807.3") (world []) <>
    Ok ("1" +:+ "." +:+ fmt_d (digits_value 0 "9223372036854775807" + 1) +:+ ".0") /\
  eval (incrementRelease "1.9223372036854775808.3") (world []) =
    Err ErrInvalidVersionFormat.
Proof.
  repeat split; by_computation.
Qed.

(** C9, amended.  [incrementDev] never looks at the first field: for every
    input [X.N] with [X] any dot-free string and [N] a decimal integer
    with [minInt <= N < maxInt], it succeeds and returns [dev.(N+1)],
    and any other dot-free first field gives the same run. *)
Theorem incrementDev_any_prefix (x s : string) (N : Z) (w : World) :
  dot_free x = true ->
  integer_literal s = Some N -> minInt <= N < maxInt ->
  eval (incrementDev (x +:+ "." +:+ s)) w = Ok ("dev." +:+ fmt_d (N + 1)) /\
  forall y, dot_free y = true ->
    incrementDev (y +:+ "." +:+ s) w = incrementDev (x +:+ "." +:+ s) w.
Proof.
  intros Hx Hs HN. split.
  - apply incrementDev_second_field; assumption.
  - intros y Hy. apply incrementDev_first_field_unused; assumption.
Qed.

Lemma incrementDev_any_prefix_witness :
  dot_free "rc" = true /\ integer_literal "-7" = Some (-7) /\
  minInt <= -7 < maxInt /\
  eval (incrementDev ("rc" +:+ "." +:+ "-7")) (world []) =
    Ok ("dev." +:+ fmt_d (-7 + 1)) /\
  forall y, dot_free y = true ->
    incrementDev (y +:+ "." +:+ "-7") (world []) =
    incrementDev ("rc" +:+ "." +:+ "-7") (world []).
Proof.
  assert (Hrange : minInt <= -7 < maxInt) by (split; [discriminate|reflexivity]).
  do 2 (split; [reflexivity|]). split; [exact Hrange|].
  apply (incrementDev_any_prefix "rc" "-7" (-7) (world []));
    [reflexivity|reflexivity|exact Hrange].
Defined.

(** C9 as stated fails for the integers whose successor is not an [int]. *)
Lemma prefixed_tag_wraps_at_maxInt :
  dot_free "rc" = true /\
  integer_literal "9223372036854775807" = Some 9223372036854775807 /\
  eval (incrementDev "rc.9223372036854775807") (world []) =
    Ok "dev.-9223372036854775808" /\
  eval (incrementDev "rc.9223372036854775807") (world []) <>
    Ok ("dev." +:+ fmt_d (9223372036854775807 + 1)) /\
  integer_literal "9223372036854775808" = Some 9223372036854775808 /\
  eval (incrementDev "rc.9223372036854775808") (world []) =
    Err ErrInvalidVersionFormat.
Proof.
  repeat split; by_computation.
Qed.

(** C10, amended.  [incrementRelease] parses neither [MAJOR] nor [PATCH]:
    for every input [A.N.C] with [A] and [C] any dot-free strings and [N] a
    decimal integer with [minInt <= N < maxInt], it succeeds and returns
    [A.(N+1).0], with [A] copied as it is and [C] dropped: any other
    dot-free last field gives the same run. *)
Theorem incrementRelease_any_major_patch
    (a s c : string) (N : Z) (w : World) :
  dot_free a = true -> dot_free c = true ->
  integer_literal s = Some N -> minInt <= N < maxInt ->
  eval (incrementRelease (a +:+ "." +:+ s +:+ "." +:+ c)) w =
    Ok (a +:+ "." +:+ fmt_d (N + 1) +:+ ".0") /\
  forall c', dot_free c' = true ->
    incrementRelease (a +:+ "." +:+ s +:+ "." +:+ c') w =
    incrementRelease (a +:+ "." +:+ s +:+ "." +:+ c) w.
Proof.
  intros Ha Hc Hs HN. split.
  - apply incrementRelease_second_field; assumption.
  - intros c' Hc'. apply incrementRelease_last_field_unused;
      eauto using integer_literal_dot_free.
Qed.

Lemma incrementRelease_any_major_patch_witness :
  dot_free "v1" = true /\ dot_free "beta" = true /\
  integer_literal "4" = Some 4 /\ minInt <= 4 < maxInt /\
  eval (incrementRelease ("v1" +:+ "." +:+ "4" +:+ "." +:+ "beta")) (world []) =
    Ok ("v1" +:+ "." +:+ fmt_d (4 + 1) +:+ ".0") /\
  forall c', dot_free c' = true ->
    incrementRelease ("v1" +:+ "." +:+ "4" +:+ "." +:+ c') (world []) =
    incrementRelease ("v1" +:+ "." +:+ "4" +:+ "." +:+ "beta") (world []).
Proof.
  assert (Hrange : minInt <= 4 < maxInt) by (split; [discriminate|reflexivity]).
  do 3 (split; [reflexivity|]). split; [exact Hrange|].
  apply (incrementRelease_any_major_patch "v1" "4" "beta" 4 (world []));
    [reflexivity|reflexivity|reflexivity|exact Hrange].
Defined.

(** C10 as stated fails for the integers whose successor is not an [int]. *)
Lemma free_fields_tag_wraps_at_maxInt :
  dot_free "v1" = true /\ dot_free "beta" = true /\
  integer_literal "9223372036854775807" = Some 9223372036854775807 /\
  eval (incrementRelease "v1.9223372036854775807.beta") (world []) =
    Ok "v1.-9223372036854775808.0" /\
  eval (incrementRelease "v1.9223372036854775807.beta") (world []) <>
    Ok ("v1" +:+ "." +:+ fmt_d (9223372036854775807 + 1) +:+ ".0") /\
  integer_literal "9223372036854775808" = Some 9223372036854775808 /\
  eval (incrementRelease "v1.9223372036854775808.beta") (world []) =
    Err ErrInvalidVersionFormat.
Proof.
  repeat split; by_computation.
Qed.

(** ** The operations *)

Lemma run_eval_exec {A} (m : IO A) (w : World) : m w = (eval m w, exec m w).
Proof. unfold eval, exec. destruct (m w); reflexivity. Qed.

Lemma foreign_not_nil_check (o : option error) :
  foreign o -> nil_check_error o = false.
Proof. destruct o as [[| | |msg]|]; simpl; intros H; try reflexivity; destruct H. Qed.

Lemma foreign_not_parse_error (o : option error) :
  foreign o -> o <> Some ErrInvalidVersionFormat.
Proof. destruct o as [[| | |msg]|]; simpl; intros H; try discriminate; destruct H. Qed.

(** What [getTag] returns depends on the files only, not on the console. *)
Lemma getTag_eval_files yaml io (w1 w2 : World) :
  files w1 = files w2 -> eval (getTag yaml io) w1 = eval (getTag yaml io) w2.
Proof.
  intros Hf. io_unfold. rewrite Hf.
  destruct (open_fault io DevFullPathFilename O_RDONLY); [reflexivity|].
  destruct (files w2 !! DevFullPathFilename); simpl; [|reflexivity].
  rewrite Hf. destruct (read_fault io DevFullPathFilename); simpl; [reflexivity|].
  destruct (Unmarshal yaml _); reflexivity.
Qed.

Lemma newRelease_malformed io (tag : string) (w : World) :
  malformedRelease tag = true ->
  eval (newRelease io tag) w = Some ErrInvalidVersionFormat /\
  files (exec (newRelease io tag) w) = files w.
Proof.
  intros Hmal. unfold eval at 1, exec at 1, newRelease, bind.
  pose proof (incrementRelease_eval tag w) as He.
  pose proof (incrementRelease_files tag w) as Hf.
  rewrite (run_eval_exec (incrementRelease tag) w), He, Hmal.
  split; [reflexivity|exact Hf].
Qed.

Lemma newRelease_frame io (tag : string) (w : World) (p : string) :
  p <> NewVersionFullPathFilename ->
  files (exec (newRelease io tag) w) !! p = files w !! p.
Proof.
  intros Hp. unfold exec at 1, newRelease, bind.
  pose proof (incrementRelease_files tag w) as Hf.
  rewrite (run_eval_exec (incrementRelease tag) w).
  destruct (eval (incrementRelease tag) w) as [v|e]; cbn.
  - pose proof (saveRelease_frame io v (exec (incrementRelease tag) w) p Hp) as Hs.
    rewrite (run_eval_exec (saveRelease io v) _).
    destruct (eval (saveRelease io v) _); cbn; rewrite Hs, Hf; reflexivity.
  - rewrite Hf. reflexivity.
Qed.

Lemma newRelease_ok io (tag version : string) (w : World) :
  eval (incrementRelease tag) w = Ok version ->
  writable io NewVersionFullPathFilename ->
  exists w',
    newRelease io tag w = (None, w') /\
    files w' = <[NewVersionFullPathFilename := version]> (files w).
Proof.
  intros He Hio. unfold newRelease, bind.
  pose proof (incrementRelease_files tag w) as Hf.
  rewrite (run_eval_exec (incrementRelease tag) w), He.
  destruct (saveRelease_ok io version (exec (incrementRelease tag) w) Hio)
    as (w' & -> & Hw').
  exists w'. split; [reflexivity|]. rewrite Hw', Hf. reflexivity.
Qed.

Lemma newRelease_no_nil_check io (tag : string) (w : World) :
  nil_check_error (eval (newRelease io tag) w) = false.
Proof.
  unfold eval at 1, newRelease, bind.
  pose proof (incrementRelease_eval tag w) as He.
  rewrite (run_eval_exec (incrementRelease tag) w), He.
  destruct (malformedRelease tag); [reflexivity|].
  match goal with |- context [saveRelease io ?v ?w0] =>
    pose proof (saveRelease_foreign io v w0) as Hs;
    rewrite (run_eval_exec (saveRelease io v) w0);
    destruct (eval (saveRelease io v) w0) as [e|] end;
    [|reflexivity].
  exact (foreign_not_nil_check _ Hs).
Qed.

Lemma bumpDev_malformed yaml io (v : string) (w : World) :
  eval (getTag yaml io) w = Ok v -> malformedDev v = true ->
  eval (bumpDev yaml io) w = Some ErrInvalidVersionFormat /\
  files (exec (bumpDev yaml io) w) = files w.
Proof.
  intros Hg Hmal. unfold eval at 1, exec at 1, bumpDev, bind.
  pose proof (getTag_files yaml io w) as Hf1.
  rewrite (run_eval_exec (getTag yaml io) w), Hg.
  pose proof (incrementDev_eval v (exec (getTag yaml io) w)) as He.
  pose proof (incrementDev_files v (exec (getTag yaml io) w)) as Hf2.
  rewrite (run_eval_exec (incrementDev v) _), He, Hmal.
  split; [reflexivity|]. cbn. rewrite Hf2, Hf1. reflexivity.
Qed.

(** On a well-formed tag [bumpDev] goes on to [saveDev], whose errors are
    the libraries'. *)
Lemma bumpDev_wellformed yaml io (v : string) (w : World) :
  eval (getTag yaml io) w = Ok v -> malformedDev v = false ->
  foreign (eval (bumpDev yaml io) w).
Proof.
  intros Hg Hmal. unfold eval at 1, bumpDev, bind.
  rewrite (run_eval_exec (getTag yaml io) w), Hg.
  pose proof (incrementDev_eval v (exec (getTag yaml io) w)) as He.
  rewrite (run_eval_exec (incrementDev v) _), He, Hmal.
  match goal with |- context [saveDev yaml io ?t ?w0] =>
    pose proof (saveDev_foreign yaml io t w0) as Hs;
    rewrite (run_eval_exec (saveDev yaml io t) w0);
    destruct (eval (saveDev yaml io t) w0) as [e|] end;
    [exact Hs|exact I].
Qed.

Lemma bumpDev_no_nil_check yaml io (w : World) :
  nil_check_error (eval (bumpDev yaml io) w) = false.
Proof.
  pose proof (getTag_foreign yaml io w) as Hg.
  destruct (eval (getTag yaml io) w) as [v|e] eqn:E.
  - destruct (malformedDev v) eqn:Hmal.
    + destruct (bumpDev_malformed yaml io v w E Hmal) as [-> _]. reflexivity.
    + apply foreign_not_nil_check, (bumpDev_wellformed yaml io v); assumption.
  - unfold eval at 1, bumpDev, bind.
    rewrite (run_eval_exec (getTag yaml io) w), E.
    exact (foreign_not_nil_check _ Hg).
Qed.

(** ** main *)

Lemma tag_given (tag : string) : tag <> "" -> String.eqb tag "" = false.
Proof. apply String.eqb_neq. Qed.

(** In dev mode [main] is [bumpDev] between two lines of output. *)
Lemma main_dev_run yaml io (tag : string) (w : World) :
  main yaml io false tag w =
    let r := bumpDev yaml io (exec (fmt_Printf ("Cutting RC release, so bumping" +:+ LF)) w) in
    match fst r with
    | Some err => fmt_Printf ("bumpDev failed. Err: " +:+ Error err +:+ LF) (snd r)
    | None => fmt_Printf ("Succeeded" +:+ LF) (snd r)
    end.
Proof.
  unfold main, bind. rewrite (run_eval_exec (fmt_Printf _) w).
  destruct (bumpDev yaml io _) as [[e|] w']; reflexivity.
Qed.

(** In release mode, once the reset went through, [main] is [newRelease]
    and one line of output. *)
Lemma main_release_run yaml io (tag : string) (w w1 : World) :
  tag <> "" ->
  resetDev yaml io (exec (fmt_Printf ("Cutting GA release, so resetting" +:+ LF)) w)
    = (None, w1) ->
  main yaml io true tag w =
    let r := newRelease io tag w1 in
    match fst r with
    | Some err => fmt_Printf ("newRelease failed. Err: " +:+ Error err +:+ LF) (snd r)
    | None => fmt_Printf ("Succeeded" +:+ LF) (snd r)
    end.
Proof.
  intros Hne Hreset. unfold main, bind. rewrite (tag_given tag Hne).
  rewrite (run_eval_exec (fmt_Printf _) w), Hreset.
  destruct (newRelease io tag w1) as [[e|] w']; reflexivity.
Qed.

Lemma Printf_files (s : string) (w : World) : files (exec (fmt_Printf s) w) = files w.
Proof. reflexivity. Qed.

Lemma Printf_last (s : string) (w : World) : last (stdout (exec (fmt_Printf s) w)) = Some s.
Proof. apply last_snoc. Qed.

Lemma main_dev_files yaml io (tag : string) (w : World) :
  exists w0,
    files w0 = files w /\
    files (exec (main yaml io false tag) w) = files (exec (bumpDev yaml io) w0) /\
    last (stdout (exec (main yaml io false tag) w)) =
      Some (match eval (bumpDev yaml io) w0 with
            | Some err => "bumpDev failed. Err: " +:+ Error err +:+ LF
            | None => "Succeeded" +:+ LF
            end).
Proof.
  exists (exec (fmt_Printf ("Cutting RC release, so bumping" +:+ LF)) w).
  split; [reflexivity|]. unfold exec at 1 4. rewrite main_dev_run. cbv zeta.
  fold (eval (bumpDev yaml io) (exec (fmt_Printf ("Cutting RC release, so bumping" +:+ LF)) w)).
  fold (exec (bumpDev yaml io) (exec (fmt_Printf ("Cutting RC release, so bumping" +:+ LF)) w)).
  destruct (eval (bumpDev yaml io) _);
    (split; [apply Printf_files|apply Printf_last]).
Qed.

(** In release mode, once the reset went through, what [main] leaves in
    the files is what [newRelease] leaves, started after the reset. *)
Lemma main_release_after_reset yaml io (tag bytes : string) (w : World) :
  tag <> "" ->
  Marshal yaml {| Version_Version := DefaultTagVersion |} = inl bytes ->
  writable io DevFullPathFilename ->
  exists w1,
    files w1 = <[DevFullPathFilename := bytes]> (files w) /\
    files (exec (main yaml io true tag) w) = files (exec (newRelease io tag) w1) /\
    last (stdout (exec (main yaml io true tag) w)) =
      Some (match eval (newRelease io tag) w1 with
            | Some err => "newRelease failed. Err: " +:+ Error err +:+ LF
            | None => "Succeeded" +:+ LF
            end).
Proof.
  intros Hne Hm Hio.
  destruct (saveDev_ok yaml io DefaultTagVersion bytes
              (exec (fmt_Printf ("Cutting GA release, so resetting" +:+ LF)) w) Hm Hio)
    as (w1 & Hreset & Hf1).
  exists w1. split; [exact Hf1|].
  unfold exec at 1 3. rewrite (main_release_run yaml io tag w w1 Hne Hreset).
  cbv zeta. fold (eval (newRelease io tag) w1). fold (exec (newRelease io tag) w1).
  destruct (eval (newRelease io tag) w1);
    (split; [apply Printf_files|apply Printf_last]).
Qed.

(** ** The claims about the operations *)






(** C5.  With [-release -tag 1.2.3] and no failing file operation, the
    program ends on [Succeeded], the dev marker file holds the YAML form
    of [dev.1], and the new-version file holds the bare string [1.3.0]. *)
Theorem release_1_2_3 yaml io (bytes : string) (w : World) :
  Marshal yaml {| Version_Version := "dev.1" |} = inl bytes ->
  writable io DevFullPathFilename ->
  writable io NewVersionFullPathFilename ->
  let w' := exec (main yaml io true "1.2.3") w in
  succeeded w' /\
  files w' !! DevFullPathFilename = Some bytes /\
  files w' !! NewVersionFullPathFilename = Some "1.3.0".
Proof.
  intros Hm Hdev Hnew w'. subst w'.
  destruct (main_release_after_reset yaml io "1.2.3" bytes w
              ltac:(discriminate) Hm Hdev) as (w1 & Hf1 & Hfiles & Hout).
  assert (Hinc : eval (incrementRelease "1.2.3") w1 = Ok "1.3.0")
    by (rewrite incrementRelease_eval; vm_compute; reflexivity).
  destruct (newRelease_ok io "1.2.3" "1.3.0" w1 Hinc Hnew) as (w2 & Hrun & Hf2).
  unfold eval in Hout. unfold exec at 2 in Hfiles. rewrite Hrun in Hout, Hfiles.
  cbn [fst snd] in Hout, Hfiles. unfold succeeded.
  split; [exact Hout|]. rewrite Hfiles, Hf2, Hf1. split.
  - rewrite lookup_insert_ne by (apply not_eq_sym, paths_differ).
    apply lookup_insert_eq.
  - apply lookup_insert_eq.
Qed.

Lemma release_1_2_3_witness :
  let w' := exec (main flat_yaml quiet true "1.2.3") (world []) in
  Marshal flat_yaml {| Version_Version := "dev.1" |} = inl ("version: dev.1" +:+ LF) /\
  writable quiet DevFullPathFilename /\
  writable quiet NewVersionFullPathFilename /\
  succeeded w' /\
  files w' !! DevFullPathFilename = Some ("version: dev.1" +:+ LF) /\
  files w' !! NewVersionFullPathFilename = Some "1.3.0".
Proof.
  assert (Hio : forall path, writable quiet path) by (repeat split; reflexivity).
  split; [reflexivity|]. split; [apply Hio|]. split; [apply Hio|].
  apply (release_1_2_3 flat_yaml quiet ("version: dev.1" +:+ LF) (world []));
    [reflexivity|apply Hio|apply Hio].
Defined.

(** C6, amended.  When the dev marker file was read, [bumpDev] returns
    [ErrInvalidVersionFormat] if and only if the version string does not
    split into exactly two dot-separated fields or its second field is not
    a decimal integer that an [int] can hold; otherwise the parse step
    succeeds. *)
Theorem bumpDev_parse_error_iff yaml io (version : string) (w : World) :
  eval (getTag yaml io) w = Ok version ->
  (eval (bumpDev yaml io) w = Some ErrInvalidVersionFormat <->
   length (fields version) <> 2%nat \/
   int_literal (nth 1 (fields version) "") = false) /\
  (length (fields version) = 2%nat ->
   int_literal (nth 1 (fields version) "") = true ->
   exists newVersion, forall w', eval (incrementDev version) w' = Ok newVersion).
Proof.
  intros Hg.
  assert (Hmal : malformedDev version = true <->
                 length (fields version) <> 2%nat \/
                 int_literal (nth 1 (fields version) "") = false).
  { unfold malformedDev. rewrite orb_true_iff, !negb_true_iff, Nat.eqb_neq.
    reflexivity. }
  split; [split|].
  - intros He. apply Hmal. destruct (malformedDev version) eqn:E; [reflexivity|].
    pose proof (bumpDev_wellformed yaml io version w Hg E) as Hf.
    apply foreign_not_parse_error in Hf. contradiction.
  - intros H. apply Hmal in H. apply (bumpDev_malformed yaml io version w Hg H).
  - intros Hlen Hint. eexists. intros w'. rewrite incrementDev_eval.
    unfold malformedDev. rewrite Hlen, Hint. reflexivity.
Qed.

Lemma bumpDev_parse_error_iff_witness :
  let w := world [(DevFullPathFilename, "version: dev.x" +:+ LF)] in
  eval (getTag flat_yaml quiet) w = Ok "dev.x" /\
  (eval (bumpDev flat_yaml quiet) w = Some ErrInvalidVersionFormat <->
   length (fields "dev.x") <> 2%nat \/
   int_literal (nth 1 (fields "dev.x") "") = false) /\
  (length (fields "dev.x") = 2%nat ->
   int_literal (nth 1 (fields "dev.x") "") = true ->
   exists newVersion, forall w', eval (incrementDev "dev.x") w' = Ok newVersion).
Proof.
  intros w. split; [vm_compute; reflexivity|].
  apply (bumpDev_parse_error_iff flat_yaml quiet "dev.x" w).
  vm_compute. reflexivity.
Defined.

(** C6 as stated fails on a second field that is an integer too large for
    [int]: the file holds two fields and the second is an integer, yet
    [bumpDev] returns the parse error. *)
Lemma bumpDev_parse_error_on_big_integer :
  let w := world [(DevFullPathFilename, "version: dev.9223372036854775808" +:+ LF)] in
  eval (getTag flat_yaml quiet) w = Ok "dev.9223372036854775808" /\
  length (fields "dev.9223372036854775808") = 2%nat /\
  integer_literal (nth 1 (fields "dev.9223372036854775808") "") =
    Some 9223372036854775808 /\
  eval (bumpDev flat_yaml quiet) w = Some ErrInvalidVersionFormat.
Proof.
  repeat split; by_computation.
Qed.

(** The reference package gives every tag back, so the hypothesis of the
    round trip below can be met for every tag. *)
Lemma strip_final_LF_append (t : string) : strip_final_LF (t +:+ LF) = Some t.
Proof.
  induction t as [|c t IH]; [reflexivity|].
  destruct t as [|d t]; [reflexivity|].
  change (strip_final_LF (String c (String d t) +:+ LF))
    with (option_map (String c) (strip_final_LF (String d t +:+ LF))).
  rewrite IH. reflexivity.
Qed.

Lemma flat_yaml_round_trips (tag : string) : round_trips flat_yaml tag.
Proof.
  exists ("version: " +:+ tag +:+ LF). split; [reflexivity|].
  cbn [Unmarshal flat_yaml].
  change (strip_prefix "version: " ("version: " +:+ tag +:+ LF))
    with (Some (tag +:+ LF)).
  cbv iota beta. rewrite strip_final_LF_append. reflexivity.
Qed.



(** C8.  The two nil checks never fire: [bufio.NewWriter] and
    [bufio.NewReader] give a handle for every file, and no operation of
    the program, in any world and under any faults, returns
    [ErrDataWriterFailed] or [ErrDataReaderFailed]. *)
Theorem nil_checks_never_fire yaml io (tag : string) (f : File) (w : World) :
  is_Some (bufio_NewWriter f) /\
  is_Some (bufio_NewReader f) /\
  nil_check_error (eval (saveRelease io tag) w) = false /\
  nil_check_error (eval (saveDev yaml io tag) w) = false /\
  nil_check_error (error_of (eval (getTag yaml io) w)) = false /\
  nil_check_error (eval (resetDev yaml io) w) = false /\
  nil_check_error (eval (newRelease io tag) w) = false /\
  nil_check_error (eval (bumpDev yaml io) w) = false.
Proof.
  split; [eexists; reflexivity|]. split; [eexists; reflexivity|].
  split; [apply foreign_not_nil_check, saveRelease_foreign|].
  split; [apply foreign_not_nil_check, saveDev_foreign|].
  split; [apply foreign_not_nil_check, getTag_foreign|].
  split; [apply foreign_not_nil_check, saveDev_foreign|].
  split; [apply newRelease_no_nil_check|apply bumpDev_no_nil_check].
Qed.

(** * Further properties of the program *)

(** ** Field counts *)

Lemma Split_length (s : string) :
  length (strings_Split s ".") = S (count_byte "." s).
Proof.
  induction s as [|c r IH]; [reflexivity|]. cbn [strings_Split count_byte].
  destruct (Ascii.eqb c "."); cbn [length]; [rewrite IH; reflexivity|].
  destruct (strings_Split r ".") as [|f fs]; [discriminate IH|exact IH].
Qed.

(** X1.  A tag is turned down by [incrementDev] unless it has exactly one
    dot, and by [incrementRelease] unless it has exactly two. *)
Theorem increments_count_dots (tag : string) (w : World) :
  (count_byte "." tag <> 1%nat ->
   eval (incrementDev tag) w = Err ErrInvalidVersionFormat) /\
  (count_byte "." tag <> 2%nat ->
   eval (incrementRelease tag) w = Err ErrInvalidVersionFormat).
Proof.
  split; intros Hn.
  - rewrite incrementDev_eval. unfold malformedDev, fields. rewrite Split_length.
    destruct (Nat.eqb_spec (S (count_byte "." tag)) 2) as [E|E]; [lia|reflexivity].
  - rewrite incrementRelease_eval. unfold malformedRelease, fields.
    rewrite Split_length.
    destruct (Nat.eqb_spec (S (count_byte "." tag)) 3) as [E|E]; [lia|reflexivity].
Qed.

Lemma increments_count_dots_witness :
  count_byte "." "1.2.3" <> 1%nat /\ count_byte "." "dev.5" <> 2%nat /\
  eval (incrementDev "1.2.3") (world []) = Err ErrInvalidVersionFormat /\
  eval (incrementRelease "dev.5") (world []) = Err ErrInvalidVersionFormat.
Proof.
  assert (H1 : count_byte "." "1.2.3" <> 1%nat) by (vm_compute; lia).
  assert (H2 : count_byte "." "dev.5" <> 2%nat) by (vm_compute; lia).
  split; [exact H1|]. split; [exact H2|]. split.
  - exact (proj1 (increments_count_dots "1.2.3" (world [])) H1).
  - exact (proj2 (increments_count_dots "dev.5" (world [])) H2).
Defined.

(** ** What the increments return is a tag again *)

Lemma wrap_int_range (z : Z) : minInt <= wrap_int z <= maxInt.
Proof.
  unfold wrap_int, minInt, maxInt.
  change (2 ^ (intSize - 1)) with 9223372036854775808.
  change (2 ^ intSize) with 18446744073709551616.
  pose proof (Z.mod_pos_bound (z + 9223372036854775808) 18446744073709551616
                ltac:(lia)). lia.
Qed.

Lemma int_literal_fmt_d (m : Z) :
  minInt <= m <= maxInt -> int_literal (fmt_d m) = true.
Proof.
  intros Hm. apply (int_literal_in_range _ m); [apply integer_literal_fmt_d|exact Hm].
Qed.

Lemma first_field_dot_free (tag : string) :
  dot_free (nth 0 (fields tag) "") = true.
Proof.
  unfold fields. pose proof (Split_dot_free_fields tag) as H.
  destruct (strings_Split tag ".") as [|f fs]; [reflexivity|].
  inversion H; assumption.
Qed.

(** X2.  [incrementDev] never returns a tag it would itself turn down:
    whatever it returns is [dev.] followed by the decimal form of an [int],
    wrap-around included, and is accepted by the next call. *)
Theorem incrementDev_output_accepted (tag out : string) (w : World) :
  eval (incrementDev tag) w = Ok out ->
  malformedDev out = false /\
  exists m, minInt <= m <= maxInt /\ out = "dev." +:+ fmt_d m /\
    forall w', eval (incrementDev out) w' = Ok ("dev." +:+ fmt_d (int_add m 1)).
Proof.
  rewrite incrementDev_eval. destruct (malformedDev tag); [discriminate|].
  intros [= <-]. unfold int_add at 1 2.
  set (m := wrap_int _). pose proof (wrap_int_range
    (fst (strconv_Atoi (nth 1 (fields tag) "")) + 1)) as Hm. fold m in Hm.
  assert (Hacc : forall w', eval (incrementDev ("dev" +:+ "." +:+ fmt_d m)) w' =
                            Ok ("dev." +:+ fmt_d (int_add m 1))).
  { intros w'. apply incrementDev_accepted; [reflexivity|].
    apply Atoi_fmt_d. exact Hm. }
  split.
  - specialize (Hacc w). rewrite incrementDev_eval in Hacc.
    change ("dev" +:+ "." +:+ fmt_d m) with ("dev." +:+ fmt_d m) in Hacc.
    destruct (malformedDev ("dev." +:+ fmt_d m)); [discriminate|reflexivity].
  - exists m. split; [exact Hm|]. split; [reflexivity|exact Hacc].
Qed.

Lemma incrementDev_output_accepted_witness :
  eval (incrementDev "rc.9223372036854775807") (world []) =
    Ok "dev.-9223372036854775808" /\
  malformedDev "dev.-9223372036854775808" = false /\
  exists m, minInt <= m <= maxInt /\
    "dev.-9223372036854775808" = "dev." +:+ fmt_d m /\
    forall w', eval (incrementDev "dev.-9223372036854775808") w' =
               Ok ("dev." +:+ fmt_d (int_add m 1)).
Proof.
  assert (H : eval (incrementDev "rc.9223372036854775807") (world []) =
              Ok "dev.-9223372036854775808") by (vm_compute; reflexivity).
  split; [exact H|].
  exact (incrementDev_output_accepted "rc.9223372036854775807"
           "dev.-9223372036854775808" (world []) H).
Defined.

(** X3.  [incrementRelease] never returns a tag it would itself turn
    down: the result has three fields, the first one of the input, an
    [int] in decimal, and [0]. *)
Theorem incrementRelease_output_accepted (tag out : string) (w : World) :
  eval (incrementRelease tag) w = Ok out ->
  malformedRelease out = false /\
  exists m, minInt <= m <= maxInt /\
    fields out = [nth 0 (fields tag) ""; fmt_d m; "0"].
Proof.
  rewrite incrementRelease_eval. destruct (malformedRelease tag); [discriminate|].
  intros [= <-]. unfold int_add.
  set (m := wrap_int _). pose proof (wrap_int_range
    (fst (strconv_Atoi (nth 1 (fields tag) "")) + 1)) as Hm. fold m in Hm.
  assert (Hf : fields (nth 0 (fields tag) "" +:+ "." +:+ fmt_d m +:+ ".0") =
               [nth 0 (fields tag) ""; fmt_d m; "0"]).
  { unfold fields at 1. change ".0" with ("." +:+ "0").
    apply Split_three_fields;
      [apply first_field_dot_free|apply dot_free_fmt_d|reflexivity]. }
  split.
  - unfold malformedRelease. rewrite Hf. cbn [length nth Nat.eqb negb orb].
    rewrite int_literal_fmt_d by exact Hm. reflexivity.
  - exists m. split; [exact Hm|exact Hf].
Qed.

Lemma incrementRelease_output_accepted_witness :
  eval (incrementRelease "v1.41.rc") (world []) = Ok "v1.42.0" /\
  malformedRelease "v1.42.0" = false /\
  exists m, minInt <= m <= maxInt /\
    fields "v1.42.0" = [nth 0 (fields "v1.41.rc") ""; fmt_d m; "0"].
Proof.
  assert (H : eval (incrementRelease "v1.41.rc") (world []) = Ok "v1.42.0")
    by (vm_compute; reflexivity).
  split; [exact H|].
  exact (incrementRelease_output_accepted "v1.41.rc" "v1.42.0" (world []) H).
Defined.

(** X4.  Only the value of the number counts, not how it is written:
    two dev tags whose second fields are decimal forms of the same [int]
    (leading zeros, a plus sign) get the same answer. *)
Theorem incrementDev_number_form (x y s1 s2 : string) (v : Z) (w : World) :
  dot_free x = true -> dot_free y = true ->
  integer_literal s1 = Some v -> integer_literal s2 = Some v ->
  minInt <= v <= maxInt ->
  eval (incrementDev (x +:+ "." +:+ s1)) w =
    Ok ("dev." +:+ fmt_d (int_add v 1)) /\
  eval (incrementDev (y +:+ "." +:+ s2)) w =
  eval (incrementDev (x +:+ "." +:+ s1)) w.
Proof.
  intros Hx Hy H1 H2 Hv.
  rewrite (incrementDev_accepted x s1 v) by (auto using Atoi_accepts).
  rewrite (incrementDev_accepted y s2 v) by (auto using Atoi_accepts).
  split; reflexivity.
Qed.

Lemma incrementDev_number_form_witness :
  dot_free "dev" = true /\ dot_free "rc" = true /\
  integer_literal "007" = Some 7 /\ integer_literal "+7" = Some 7 /\
  minInt <= 7 <= maxInt /\
  eval (incrementDev ("dev" +:+ "." +:+ "007")) (world []) =
    Ok ("dev." +:+ fmt_d (int_add 7 1)) /\
  eval (incrementDev ("rc" +:+ "." +:+ "+7")) (world []) =
  eval (incrementDev ("dev" +:+ "." +:+ "007")) (world []).
Proof.
  assert (Hv : minInt <= 7 <= maxInt) by (split; discriminate).
  do 4 (split; [reflexivity|]). split; [exact Hv|].
  apply (incrementDev_number_form "dev" "rc" "007" "+7" 7 (world []));
    [reflexivity|reflexivity|reflexivity|reflexivity|exact Hv].
Defined.

(** ** The writers under faults *)

Lemma str_take_all (s : string) : str_take (String.length s) s = s.
Proof.
  unfold str_take. induction s as [|c s IH]; [reflexivity|].
  cbn [String.length String.substring]. rewrite IH. reflexivity.
Qed.

Lemma str_take_empty (n : nat) : str_take n "" = "".
Proof. destruct n; reflexivity. Qed.

Lemma append_nil_l (s : string) : "" +:+ s = s.
Proof. reflexivity. Qed.

(** The bytes that were buffered, when the flush found nothing to send. *)
Ltac nothing_buffered :=
  match goal with
  | H : (Buffered _ =? 0) = true |- _ =>
      apply Z.eqb_eq in H; unfold Buffered in H; cbn [buf] in H;
      rewrite ?append_nil_l in H; apply len_0 in H; subst
  end.

Ltac file_written :=
  rewrite ?lookup_insert_eq; cbn [default]; rewrite ?append_nil_l;
  rewrite ?insert_insert_eq; try nothing_buffered;
  rewrite ?str_take_empty; try reflexivity.

Ltac io_cases_with H :=
  io_unfold;
  repeat (first [rewrite Write_fresh; unfold File_Write, put_file, bind, ret
                | rewrite H | case_match];
          simplify_eq/=).

Lemma saveRelease_write_fault io (version : string) (w : World) n msg :
  opens_for_write io NewVersionFullPathFilename ->
  write_fault io NewVersionFullPathFilename = Some (n, msg) ->
  eval (saveRelease io version) w =
    (if defaultBufSize <? len version
     then Some (PathError "write" NewVersionFullPathFilename msg)
     else close_result io NewVersionFullPathFilename) /\
  files (exec (saveRelease io version) w) =
    <[NewVersionFullPathFilename := str_take n version]> (files w).
Proof.
  unfold opens_for_write, close_result. intros Ho Hw. io_unfold. rewrite Ho.
  io_cases_with Hw; (split; [reflexivity|file_written]).
Qed.

Lemma saveRelease_written io (version : string) (w : World) :
  opens_for_write io NewVersionFullPathFilename ->
  write_fault io NewVersionFullPathFilename = None ->
  eval (saveRelease io version) w = close_result io NewVersionFullPathFilename /\
  files (exec (saveRelease io version) w) =
    <[NewVersionFullPathFilename := version]> (files w).
Proof.
  unfold opens_for_write, close_result. intros Ho Hw. io_unfold. rewrite Ho.
  io_cases_with Hw; (split; [reflexivity|file_written]).
Qed.

Lemma saveRelease_not_opened io (version : string) (w : World) msg :
  open_fault io NewVersionFullPathFilename (Z.lor O_RDWR (Z.lor O_CREATE O_TRUNC))
    = Some msg ->
  eval (saveRelease io version) w =
    Some (PathError "open" NewVersionFullPathFilename msg) /\
  files (exec (saveRelease io version) w) = files w.
Proof. intros Ho. io_unfold. rewrite Ho. split; reflexivity. Qed.

Lemma saveDev_write_fault yaml io (tag bytes : string) (w : World) n msg :
  Marshal yaml {| Version_Version := tag |} = inl bytes ->
  opens_for_write io DevFullPathFilename ->
  write_fault io DevFullPathFilename = Some (n, msg) ->
  eval (saveDev yaml io tag) w =
    (if defaultBufSize <? len bytes
     then Some (PathError "write" DevFullPathFilename msg)
     else close_result io DevFullPathFilename) /\
  files (exec (saveDev yaml io tag) w) =
    <[DevFullPathFilename := str_take n bytes]> (files w).
Proof.
  unfold opens_for_write, close_result. intros Hm Ho Hw. io_unfold.
  rewrite Hm, Ho.
  io_cases_with Hw; (split; [reflexivity|file_written]).
Qed.

Lemma saveDev_written yaml io (tag bytes : string) (w : World) :
  Marshal yaml {| Version_Version := tag |} = inl bytes ->
  opens_for_write io DevFullPathFilename ->
  write_fault io DevFullPathFilename = None ->
  eval (saveDev yaml io tag) w = close_result io DevFullPathFilename /\
  files (exec (saveDev yaml io tag) w) =
    <[DevFullPathFilename := bytes]> (files w).
Proof.
  unfold opens_for_write, close_result. intros Hm Ho Hw. io_unfold.
  rewrite Hm, Ho.
  io_cases_with Hw; (split; [reflexivity|file_written]).
Qed.

Lemma saveDev_not_opened yaml io (tag bytes : string) (w : World) msg :
  Marshal yaml {| Version_Version := tag |} = inl bytes ->
  open_fault io DevFullPathFilename (Z.lor O_RDWR (Z.lor O_CREATE O_TRUNC))
    = Some msg ->
  eval (saveDev yaml io tag) w = Some (PathError "open" DevFullPathFilename msg) /\
  files (exec (saveDev yaml io tag) w) = files w.
Proof. intros Hm Ho. io_unfold. rewrite Hm, Ho. split; reflexivity. Qed.

Lemma saveDev_not_marshalled yaml io (tag : string) (w : World) msg :
  Marshal yaml {| Version_Version := tag |} = inr msg ->
  eval (saveDev yaml io tag) w = Some (LibError msg) /\
  files (exec (saveDev yaml io tag) w) = files w.
Proof. intros Hm. io_unfold. rewrite Hm. split; reflexivity. Qed.

(** X5.  What a writer can leave behind.  After [saveRelease] either no
    file has changed (the open failed) or the new-version file holds a
    prefix of the version, possibly empty, possibly all of it, and no
    other file has changed; nothing of the old contents survives an open.
    The same for [saveDev], the dev marker file and the marshalled tag. *)
Theorem writers_leave_a_prefix yaml io (version tag : string) (w : World) :
  (files (exec (saveRelease io version) w) = files w \/
   exists n, files (exec (saveRelease io version) w) =
             <[NewVersionFullPathFilename := str_take n version]> (files w)) /\
  (files (exec (saveDev yaml io tag) w) = files w \/
   exists bytes n,
     Marshal yaml {| Version_Version := tag |} = inl bytes /\
     files (exec (saveDev yaml io tag) w) =
       <[DevFullPathFilename := str_take n bytes]> (files w)).
Proof.
  split.
  - destruct (open_fault io NewVersionFullPathFilename
                (Z.lor O_RDWR (Z.lor O_CREATE O_TRUNC))) as [msg|] eqn:Ho.
    + left. apply (saveRelease_not_opened io version w msg Ho).
    + right. destruct (write_fault io NewVersionFullPathFilename) as [[n msg]|] eqn:Hw.
      * exists n. apply (saveRelease_write_fault io version w n msg Ho Hw).
      * exists (String.length version). rewrite str_take_all.
        apply (saveRelease_written io version w Ho Hw).
  - destruct (Marshal yaml {| Version_Version := tag |}) as [bytes|msg] eqn:Hm.
    + destruct (open_fault io DevFullPathFilename
                  (Z.lor O_RDWR (Z.lor O_CREATE O_TRUNC))) as [msg|] eqn:Ho.
      * left. apply (saveDev_not_opened yaml io tag bytes w msg Hm Ho).
      * right. exists bytes.
        destruct (write_fault io DevFullPathFilename) as [[n msg]|] eqn:Hw.
        -- exists n. split; [reflexivity|].
           apply (saveDev_write_fault yaml io tag bytes w n msg Hm Ho Hw).
        -- exists (String.length bytes). rewrite str_take_all.
           split; [reflexivity|]. apply (saveDev_written yaml io tag bytes w Hm Ho Hw).
    + left. apply (saveDev_not_marshalled yaml io tag w msg Hm).
Qed.

(** X6.  A failed write is reported only for more bytes than the
    4096-byte buffer holds.  For fewer, [Write] only fills the buffer, the
    error of [Flush] is dropped, and [saveRelease] returns what the close
    returns: nil when the close works, with the file cut short after the
    [n] bytes that got through. *)
Theorem write_error_reported_when_long io (version : string) (w : World) n msg :
  opens_for_write io NewVersionFullPathFilename ->
  write_fault io NewVersionFullPathFilename = Some (n, msg) ->
  close_fault io NewVersionFullPathFilename = None ->
  (len version <= defaultBufSize -> eval (saveRelease io version) w = None) /\
  (defaultBufSize < len version ->
   eval (saveRelease io version) w =
     Some (LibError ("write " +:+ NewVersionFullPathFilename +:+ ": " +:+ msg))) /\
  files (exec (saveRelease io version) w) !! NewVersionFullPathFilename =
    Some (str_take n version).
Proof.
  intros Ho Hw Hc.
  destruct (saveRelease_write_fault io version w n msg Ho Hw) as [He Hf].
  unfold close_result in He. rewrite Hc in He. cbn [option_map] in He.
  split; [|split].
  - intros Hlen. rewrite He.
    destruct (Z.ltb_spec defaultBufSize (len version)); [lia|reflexivity].
  - intros Hlen. rewrite He.
    destruct (Z.ltb_spec defaultBufSize (len version)); [reflexivity|lia].
  - rewrite Hf. apply lookup_insert_eq.
Qed.

Lemma write_error_reported_when_long_witness :
  let io := write_fails NewVersionFullPathFilename 2 "no space left on device" in
  opens_for_write io NewVersionFullPathFilename /\
  write_fault io NewVersionFullPathFilename = Some (2%nat, "no space left on device") /\
  close_fault io NewVersionFullPathFilename = None /\
  len "1.3.0" <= defaultBufSize /\
  eval (saveRelease io "1.3.0") (world []) = None /\
  files (exec (saveRelease io "1.3.0") (world [])) !! NewVersionFullPathFilename =
    Some "1.".
Proof.
  intros io.
  assert (Hlen : len "1.3.0" <= defaultBufSize) by (vm_compute; discriminate).
  do 3 (split; [reflexivity|]). split; [exact Hlen|].
  destruct (write_error_reported_when_long io "1.3.0" (world []) 2
              "no space left on device" eq_refl eq_refl eq_refl) as (Hs & _ & Hf).
  split; [exact (Hs Hlen)|exact Hf].
Defined.



(** ** Which files a run can touch *)

Lemma bumpDev_frame yaml io (w : World) (p : string) :
  p <> DevFullPathFilename ->
  files (exec (bumpDev yaml io) w) !! p = files w !! p.
Proof.
  intros Hp. unfold exec at 1, bumpDev, bind.
  pose proof (getTag_files yaml io w) as Hg.
  rewrite (run_eval_exec (getTag yaml io) w).
  destruct (eval (getTag yaml io) w) as [v|e]; [|cbn; rewrite Hg; reflexivity].
  pose proof (incrementDev_files v (exec (getTag yaml io) w)) as Hi.
  rewrite (run_eval_exec (incrementDev v) _).
  destruct (eval (incrementDev v) _) as [nv|e]; [|cbn; rewrite Hi, Hg; reflexivity].
  match goal with |- context [saveDev yaml io nv ?w0] =>
    pose proof (saveDev_frame yaml io nv w0 p Hp) as Hs;
    rewrite (run_eval_exec (saveDev yaml io nv) w0);
    destruct (eval (saveDev yaml io nv) w0) end;
    cbn; rewrite Hs, Hi, Hg; reflexivity.
Qed.

Lemma main_release_files yaml io (tag : string) (w : World) (p : string) :
  (p = DevFullPathFilename \/ p = NewVersionFullPathFilename -> False) ->
  files (exec (main yaml io true tag) w) !! p = files w !! p.
Proof.
  intros Hp.
  assert (HpD : p <> DevFullPathFilename) by tauto.
  assert (HpN : p <> NewVersionFullPathFilename) by tauto.
  unfold exec at 1, main, bind.
  destruct (String.eqb tag ""); [reflexivity|].
  rewrite (run_eval_exec (fmt_Printf _) w). unfold resetDev.
  match goal with |- context [saveDev yaml io DefaultTagVersion ?w0] =>
    pose proof (saveDev_frame yaml io DefaultTagVersion w0 p HpD) as Hs;
    rewrite (run_eval_exec (saveDev yaml io DefaultTagVersion) w0);
    destruct (eval (saveDev yaml io DefaultTagVersion) w0) end;
    [exact Hs|].
  match goal with |- context [newRelease io tag ?w1] =>
    pose proof (newRelease_frame io tag w1 p HpN) as Hn;
    rewrite (run_eval_exec (newRelease io tag) w1);
    destruct (eval (newRelease io tag) w1) end;
    cbn [fst snd fmt_Printf files]; rewrite Hn; exact Hs.
Qed.

Lemma main_dev_frame yaml io (tag : string) (w : World) (p : string) :
  p <> DevFullPathFilename ->
  files (exec (main yaml io false tag) w) !! p = files w !! p.
Proof.
  intros Hp. destruct (main_dev_files yaml io tag w) as (w0 & H0 & Hf & _).
  rewrite Hf, bumpDev_frame, H0 by exact Hp. reflexivity.
Qed.

(** X8.  A run touches nothing but the two marker files, whatever the
    flags, the faults and the YAML package; and in dev mode the
    new-version file is not touched either. *)
Theorem main_touches_marker_files_only
    yaml io (release : bool) (tag : string) (w : World) (p : string) :
  (p <> DevFullPathFilename -> p <> NewVersionFullPathFilename ->
   files (exec (main yaml io release tag) w) !! p = files w !! p) /\
  files (exec (main yaml io false tag) w) !! NewVersionFullPathFilename =
    files w !! NewVersionFullPathFilename.
Proof.
  split.
  - intros HpD HpN. destruct release.
    + apply main_release_files. tauto.
    + apply main_dev_frame. exact HpD.
  - apply main_dev_frame. apply not_eq_sym, paths_differ.
Qed.

Lemma main_touches_marker_files_only_witness :
  let w := world [("go.mod", "module tce"); (NewVersionFullPathFilename, "0.9.0")] in
  "go.mod" <> DevFullPathFilename /\ "go.mod" <> NewVersionFullPathFilename /\
  files (exec (main flat_yaml quiet true "1.2.3") w) !! "go.mod" = Some "module tce" /\
  files (exec (main flat_yaml quiet false "") w) !! NewVersionFullPathFilename =
    Some "0.9.0".
Proof.
  intros w.
  assert (H1 : "go.mod" <> DevFullPathFilename) by discriminate.
  assert (H2 : "go.mod" <> NewVersionFullPathFilename) by discriminate.
  split; [exact H1|]. split; [exact H2|]. split.
  - rewrite (proj1 (main_touches_marker_files_only flat_yaml quiet true "1.2.3" w
                      "go.mod") H1 H2). reflexivity.
  - rewrite (proj2 (main_touches_marker_files_only flat_yaml quiet false "" w "go.mod")).
    reflexivity.
Defined.

(** ** Reading the dev marker file *)

(** X9.  [getTag] writes nothing, and what it returns is decided by the
    contents of the dev marker file alone (and the faults): two worlds
    that agree on that one file give the same result. *)
Theorem getTag_reads_dev_file_only yaml io (w1 w2 : World) :
  files w1 !! DevFullPathFilename = files w2 !! DevFullPathFilename ->
  eval (getTag yaml io) w1 = eval (getTag yaml io) w2 /\
  files (exec (getTag yaml io) w1) = files w1.
Proof.
  intros Hf. split; [|apply getTag_files]. io_unfold.
  destruct (open_fault io DevFullPathFilename O_RDONLY); [reflexivity|].
  rewrite Hf. destruct (files w2 !! DevFullPathFilename) as [y|] eqn:E; simpl;
    [|reflexivity].
  destruct (read_fault io DevFullPathFilename); simpl; [reflexivity|].
  rewrite Hf, E. simpl. destruct (Unmarshal yaml y); reflexivity.
Qed.

Lemma getTag_reads_dev_file_only_witness :
  let w1 := world [(DevFullPathFilename, "version: dev.3" +:+ LF)] in
  let w2 := world [(DevFullPathFilename, "version: dev.3" +:+ LF);
                   (NewVersionFullPathFilename, "1.3.0")] in
  files w1 !! DevFullPathFilename = files w2 !! DevFullPathFilename /\
  eval (getTag flat_yaml quiet) w1 = eval (getTag flat_yaml quiet) w2 /\
  files (exec (getTag flat_yaml quiet) w1) = files w1.
Proof.
  intros w1 w2.
  assert (H : files w1 !! DevFullPathFilename = files w2 !! DevFullPathFilename)
    by (vm_compute; reflexivity).
  split; [exact H|]. exact (getTag_reads_dev_file_only flat_yaml quiet w1 w2 H).
Defined.

Lemma bumpDev_read_failed yaml io (e : error) (w : World) :
  eval (getTag yaml io) w = Err e ->
  eval (bumpDev yaml io) w = Some e /\ files (exec (bumpDev yaml io) w) = files w.
Proof.
  intros Hg. unfold eval at 1, exec at 1, bumpDev, bind.
  pose proof (getTag_files yaml io w) as Hf.
  rewrite (run_eval_exec (getTag yaml io) w), Hg.
  split; [reflexivity|exact Hf].
Qed.

Lemma getTag_missing yaml io (w : World) :
  files w !! DevFullPathFilename = None ->
  exists msg, eval (getTag yaml io) w = Err (LibError msg).
Proof.
  intros Hf. io_unfold. rewrite Hf.
  destruct (open_fault io DevFullPathFilename O_RDONLY); eexists; reflexivity.
Qed.

(** X10.  When the dev marker file cannot be read (it is missing, the open
    or the read fails, or it is not YAML), dev mode stops on that error
    before any write: [bumpDev] returns the error of [getTag], every file
    is as it was, and the console ends on the error.  A missing file is
    such a case and is not created. *)
Theorem dev_mode_unreadable_marker yaml io (tag : string) (w : World) :
  (forall e, eval (getTag yaml io) w = Err e ->
     eval (bumpDev yaml io) w = Some e /\
     files (exec (main yaml io false tag) w) = files w /\
     last (stdout (exec (main yaml io false tag) w)) =
       Some ("bumpDev failed. Err: " +:+ Error e +:+ LF)) /\
  (files w !! DevFullPathFilename = None ->
     (exists msg, eval (getTag yaml io) w = Err (LibError msg)) /\
     files (exec (main yaml io false tag) w) !! DevFullPathFilename = None).
Proof.
  assert (Hfail : forall e, eval (getTag yaml io) w = Err e ->
     eval (bumpDev yaml io) w = Some e /\
     files (exec (main yaml io false tag) w) = files w /\
     last (stdout (exec (main yaml io false tag) w)) =
       Some ("bumpDev failed. Err: " +:+ Error e +:+ LF)).
  { intros e Hg.
    destruct (bumpDev_read_failed yaml io e w Hg) as [He _].
    split; [exact He|].
    destruct (main_dev_files yaml io tag w) as (w0 & Hw0 & Hfiles & Hout).
    assert (Hg0 : eval (getTag yaml io) w0 = Err e)
      by (rewrite (getTag_eval_files yaml io w0 w Hw0); exact Hg).
    destruct (bumpDev_read_failed yaml io e w0 Hg0) as [He0 Hf0].
    rewrite He0 in Hout. split; [|exact Hout].
    rewrite Hfiles, Hf0. exact Hw0. }
  split; [exact Hfail|].
  intros Hmiss. destruct (getTag_missing yaml io w Hmiss) as [msg Hg].
  split; [exists msg; exact Hg|].
  destruct (Hfail _ Hg) as (_ & Hf & _). rewrite Hf. exact Hmiss.
Qed.

Lemma dev_mode_unreadable_marker_witness :
  let w := world [(NewVersionFullPathFilename, "1.3.0")] in
  let e := LibError "open hack/DEV_BUILD_VERSION.yaml: no such file or directory" in
  eval (getTag flat_yaml quiet) w = Err e /\
  files w !! DevFullPathFilename = None /\
  (eval (bumpDev flat_yaml quiet) w = Some e /\
   files (exec (main flat_yaml quiet false "") w) = files w /\
   last (stdout (exec (main flat_yaml quiet false "") w)) =
     Some ("bumpDev failed. Err: " +:+ Error e +:+ LF)) /\
  (exists msg, eval (getTag flat_yaml quiet) w = Err (LibError msg)) /\
  files (exec (main flat_yaml quiet false "") w) !! DevFullPathFilename = None.
Proof.
  intros w e.
  assert (Hg : eval (getTag flat_yaml quiet) w = Err e) by (vm_compute; reflexivity).
  assert (H : files w !! DevFullPathFilename = None) by (vm_compute; reflexivity).
  split; [exact Hg|]. split; [exact H|].
  destruct (dev_mode_unreadable_marker flat_yaml quiet "" w) as [H1 H2].
  split; [exact (H1 e Hg)|exact (H2 H)].
Defined.

(** ** Runs that go through *)

Lemma bumpDev_ok yaml io (w : World) (bytes t t' bytes' : string) :
  readable io DevFullPathFilename ->
  writable io DevFullPathFilename ->
  files w !! DevFullPathFilename = Some bytes ->
  Unmarshal yaml bytes = inl {| Version_Version := t |} ->
  (forall w0, eval (incrementDev t) w0 = Ok t') ->
  Marshal yaml {| Version_Version := t' |} = inl bytes' ->
  eval (bumpDev yaml io) w = None /\
  files (exec (bumpDev yaml io) w) = <[DevFullPathFilename := bytes']> (files w).
Proof.
  intros Hrd Hwr Hf Hu Hinc Hm. unfold eval at 1, exec at 1, bumpDev, bind.
  pose proof (getTag_files yaml io w) as Hgf.
  pose proof (getTag_ok yaml io w bytes _ Hrd Hf Hu) as Hg. cbn [Version_Version] in Hg.
  rewrite (run_eval_exec (getTag yaml io) w), Hg.
  pose proof (incrementDev_files t (exec (getTag yaml io) w)) as Hif.
  rewrite (run_eval_exec (incrementDev t) _), Hinc.
  destruct (saveDev_ok yaml io t' bytes' (exec (incrementDev t) (exec (getTag yaml io) w))
              Hm Hwr) as (w' & -> & Hw').
  split; [reflexivity|]. cbn [fst snd ret]. rewrite Hw', Hif, Hgf. reflexivity.
Qed.

Lemma main_dev_ok yaml io (tag : string) (w : World) (bytes t t' bytes' : string) :
  readable io DevFullPathFilename ->
  writable io DevFullPathFilename ->
  files w !! DevFullPathFilename = Some bytes ->
  Unmarshal yaml bytes = inl {| Version_Version := t |} ->
  (forall w0, eval (incrementDev t) w0 = Ok t') ->
  Marshal yaml {| Version_Version := t' |} = inl bytes' ->
  succeeded (exec (main yaml io false tag) w) /\
  files (exec (main yaml io false tag) w) = <[DevFullPathFilename := bytes']> (files w).
Proof.
  intros Hrd Hwr Hf Hu Hinc Hm.
  destruct (main_dev_files yaml io tag w) as (w0 & Hw0 & Hfiles & Hout).
  destruct (bumpDev_ok yaml io w0 bytes t t' bytes' Hrd Hwr
              ltac:(rewrite Hw0; exact Hf) Hu Hinc Hm) as [He Hb].
  rewrite He in Hout. split; [exact Hout|]. rewrite Hfiles, Hb, Hw0. reflexivity.
Qed.

(** X11.  A dev run that goes through.  If the dev marker file decodes to
    a tag [X.N] ([X] dot-free, [N] a decimal integer with
    [minInt <= N < maxInt]), the YAML package marshals [dev.(N+1)] and no
    call on the dev marker file fails, then the run ends on [Succeeded],
    the dev marker file holds the YAML form of [dev.(N+1)], and every
    other file is as it was. *)
Theorem dev_run_bumps_counter
    yaml io (tag : string) (w : World) (bytes x s bytes' : string) (N : Z) :
  readable io DevFullPathFilename ->
  writable io DevFullPathFilename ->
  files w !! DevFullPathFilename = Some bytes ->
  Unmarshal yaml bytes = inl {| Version_Version := x +:+ "." +:+ s |} ->
  dot_free x = true -> integer_literal s = Some N -> minInt <= N < maxInt ->
  Marshal yaml {| Version_Version := "dev." +:+ fmt_d (N + 1) |} = inl bytes' ->
  succeeded (exec (main yaml io false tag) w) /\
  files (exec (main yaml io false tag) w) = <[DevFullPathFilename := bytes']> (files w).
Proof.
  intros Hrd Hwr Hf Hu Hx Hs HN Hm.
  apply (main_dev_ok yaml io tag w bytes (x +:+ "." +:+ s)
           ("dev." +:+ fmt_d (N + 1)) bytes'); try assumption.
  intros w0. apply incrementDev_second_field; assumption.
Qed.

Lemma dev_run_bumps_counter_witness :
  let w := world [(DevFullPathFilename, "version: dev.41" +:+ LF)] in
  readable quiet DevFullPathFilename /\
  writable quiet DevFullPathFilename /\
  files w !! DevFullPathFilename = Some ("version: dev.41" +:+ LF) /\
  Unmarshal flat_yaml ("version: dev.41" +:+ LF) =
    inl {| Version_Version := "dev" +:+ "." +:+ "41" |} /\
  dot_free "dev" = true /\ integer_literal "41" = Some 41 /\
  minInt <= 41 < maxInt /\
  Marshal flat_yaml {| Version_Version := "dev." +:+ fmt_d (41 + 1) |} =
    inl ("version: dev.42" +:+ LF) /\
  succeeded (exec (main flat_yaml quiet false "") w) /\
  files (exec (main flat_yaml quiet false "") w) =
    <[DevFullPathFilename := "version: dev.42" +:+ LF]> (files w).
Proof.
  intros w.
  assert (Hrd : readable quiet DevFullPathFilename) by (split; reflexivity).
  assert (Hwr : writable quiet DevFullPathFilename) by (repeat split; reflexivity).
  assert (HN : minInt <= 41 < maxInt) by (split; [discriminate|reflexivity]).
  split; [exact Hrd|]. split; [exact Hwr|]. split; [vm_compute; reflexivity|].
  split; [vm_compute; reflexivity|]. do 2 (split; [reflexivity|]).
  split; [exact HN|]. split; [vm_compute; reflexivity|].
  apply (dev_run_bumps_counter flat_yaml quiet "" w ("version: dev.41" +:+ LF)
           "dev" "41" ("version: dev.42" +:+ LF) 41);
    try assumption; try reflexivity; vm_compute; reflexivity.
Defined.

Lemma main_release_ok yaml io (tag bytes version : string) (w : World) :
  tag <> "" ->
  Marshal yaml {| Version_Version := DefaultTagVersion |} = inl bytes ->
  writable io DevFullPathFilename ->
  writable io NewVersionFullPathFilename ->
  (forall w0, eval (incrementRelease tag) w0 = Ok version) ->
  succeeded (exec (main yaml io true tag) w) /\
  files (exec (main yaml io true tag) w) =
    <[NewVersionFullPathFilename := version]>
      (<[DevFullPathFilename := bytes]> (files w)).
Proof.
  intros Hne Hm Hdev Hnew Hinc.
  destruct (main_release_after_reset yaml io tag bytes w Hne Hm Hdev)
    as (w1 & Hf1 & Hfiles & Hout).
  destruct (newRelease_ok io tag version w1 (Hinc w1) Hnew) as (w2 & Hrun & Hf2).
  unfold eval in Hout. unfold exec at 2 in Hfiles. rewrite Hrun in Hout, Hfiles.
  cbn [fst snd] in Hout, Hfiles. split; [exact Hout|].
  rewrite Hfiles, Hf2, Hf1. reflexivity.
Qed.

(** X12.  A release run that goes through.  For every tag [A.N.C] ([A]
    and [C] dot-free, [N] a decimal integer with [minInt <= N < maxInt]),
    if the YAML package marshals [dev.1] and no write to the two marker
    files fails, then the run ends on [Succeeded], the dev marker file
    holds the YAML form of [dev.1], the new-version file holds exactly
    [A.(N+1).0], and every other file is as it was. *)
Theorem release_run_cuts_version
    yaml io (a s c bytes : string) (N : Z) (w : World) :
  dot_free a = true -> dot_free c = true ->
  integer_literal s = Some N -> minInt <= N < maxInt ->
  Marshal yaml {| Version_Version := DefaultTagVersion |} = inl bytes ->
  writable io DevFullPathFilename ->
  writable io NewVersionFullPathFilename ->
  let w' := exec (main yaml io true (a +:+ "." +:+ s +:+ "." +:+ c)) w in
  succeeded w' /\
  files w' = <[NewVersionFullPathFilename := a +:+ "." +:+ fmt_d (N + 1) +:+ ".0"]>
               (<[DevFullPathFilename := bytes]> (files w)).
Proof.
  intros Ha Hc Hs HN Hm Hdev Hnew w'. subst w'.
  apply main_release_ok; try assumption.
  - destruct a; discriminate.
  - intros w0. apply incrementRelease_second_field; assumption.
Qed.

Lemma release_run_cuts_version_witness :
  let w := world [(DevFullPathFilename, "version: dev.9" +:+ LF)] in
  let w' := exec (main flat_yaml quiet true ("v1" +:+ "." +:+ "41" +:+ "." +:+ "rc")) w in
  dot_free "v1" = true /\ dot_free "rc" = true /\
  integer_literal "41" = Some 41 /\ minInt <= 41 < maxInt /\
  Marshal flat_yaml {| Version_Version := DefaultTagVersion |} =
    inl ("version: dev.1" +:+ LF) /\
  writable quiet DevFullPathFilename /\
  writable quiet NewVersionFullPathFilename /\
  succeeded w' /\
  files w' = <[NewVersionFullPathFilename := "v1" +:+ "." +:+ fmt_d (41 + 1) +:+ ".0"]>
               (<[DevFullPathFilename := "version: dev.1" +:+ LF]> (files w)).
Proof.
  intros w w'.
  assert (Hio : forall path, writable quiet path) by (repeat split; reflexivity).
  assert (HN : minInt <= 41 < maxInt) by (split; [discriminate|reflexivity]).
  do 3 (split; [reflexivity|]). split; [exact HN|]. split; [reflexivity|].
  split; [apply Hio|]. split; [apply Hio|].
  apply (release_run_cuts_version flat_yaml quiet "v1" "41" "rc"
           ("version: dev.1" +:+ LF) 41 w);
    try reflexivity; try apply Hio; exact HN.
Defined.

(** ** Runs that stop *)

Lemma newRelease_wellformed io (tag : string) (w : World) :
  malformedRelease tag = false -> foreign (eval (newRelease io tag) w).
Proof.
  intros Hmal. unfold eval at 1, newRelease, bind.
  pose proof (incrementRelease_eval tag w) as He.
  rewrite (run_eval_exec (incrementRelease tag) w), He, Hmal.
  match goal with |- context [saveRelease io ?v ?w0] =>
    pose proof (saveRelease_foreign io v w0) as Hs;
    rewrite (run_eval_exec (saveRelease io v) w0);
    destruct (eval (saveRelease io v) w0) as [e|] end;
    [exact Hs|exact I].
Qed.

(** X13.  [newRelease] returns [ErrInvalidVersionFormat] exactly on the
    tags that do not have three dot-separated fields or whose second field
    is not a decimal integer an [int] can hold: no failure of the file
    system shows up as a parse error, and no malformed tag as anything
    else. *)
Theorem newRelease_parse_error_iff io (tag : string) (w : World) :
  eval (newRelease io tag) w = Some ErrInvalidVersionFormat <->
  length (fields tag) <> 3%nat \/ int_literal (nth 1 (fields tag) "") = false.
Proof.
  assert (Hmal : malformedRelease tag = true <->
                 length (fields tag) <> 3%nat \/
                 int_literal (nth 1 (fields tag) "") = false).
  { unfold malformedRelease. rewrite orb_true_iff, !negb_true_iff, Nat.eqb_neq.
    reflexivity. }
  split.
  - intros He. apply Hmal. destruct (malformedRelease tag) eqn:E; [reflexivity|].
    pose proof (newRelease_wellformed io tag w E) as Hf.
    apply foreign_not_parse_error in Hf. contradiction.
  - intros H. apply Hmal in H. apply (newRelease_malformed io tag w H).
Qed.

(** The result of [saveDev] is decided by the YAML package and the
    faults, not by the world. *)
Lemma saveDev_eval_any yaml io (tag : string) (w1 w2 : World) :
  eval (saveDev yaml io tag) w1 = eval (saveDev yaml io tag) w2.
Proof.
  destruct (Marshal yaml {| Version_Version := tag |}) as [bytes|msg] eqn:Hm.
  - destruct (open_fault io DevFullPathFilename
                (Z.lor O_RDWR (Z.lor O_CREATE O_TRUNC))) as [msg|] eqn:Ho.
    + rewrite (proj1 (saveDev_not_opened yaml io tag bytes w1 msg Hm Ho)),
              (proj1 (saveDev_not_opened yaml io tag bytes w2 msg Hm Ho)).
      reflexivity.
    + destruct (write_fault io DevFullPathFilename) as [[n msg]|] eqn:Hw.
      * rewrite (proj1 (saveDev_write_fault yaml io tag bytes w1 n msg Hm Ho Hw)),
                (proj1 (saveDev_write_fault yaml io tag bytes w2 n msg Hm Ho Hw)).
        reflexivity.
      * rewrite (proj1 (saveDev_written yaml io tag bytes w1 Hm Ho Hw)),
                (proj1 (saveDev_written yaml io tag bytes w2 Hm Ho Hw)).
        reflexivity.
  - rewrite (proj1 (saveDev_not_marshalled yaml io tag w1 msg Hm)),
            (proj1 (saveDev_not_marshalled yaml io tag w2 msg Hm)).
    reflexivity.
Qed.

Lemma main_release_reset_failed yaml io (tag : string) (e : error) (w : World) :
  tag <> "" ->
  eval (resetDev yaml io) w = Some e ->
  files (exec (main yaml io true tag) w) !! NewVersionFullPathFilename =
    files w !! NewVersionFullPathFilename /\
  last (stdout (exec (main yaml io true tag) w)) =
    Some ("resetDev failed. Err: " +:+ Error e +:+ LF).
Proof.
  intros Hne He. unfold exec, main, bind. rewrite (tag_given tag Hne).
  rewrite (run_eval_exec (fmt_Printf _) w).
  set (w0 := exec (fmt_Printf ("Cutting GA release, so resetting" +:+ LF)) w).
  assert (He0 : eval (resetDev yaml io) w0 = Some e)
    by (unfold resetDev in *; rewrite (saveDev_eval_any yaml io _ w0 w); exact He).
  pose proof (saveDev_frame yaml io DefaultTagVersion w0 NewVersionFullPathFilename
                (not_eq_sym paths_differ)) as Hfr.
  rewrite (run_eval_exec (resetDev yaml io) w0), He0.
  split; [exact Hfr|apply last_snoc].
Qed.

(** X14.  When the reset fails in release mode (the tag cannot be
    marshalled, the dev marker file cannot be opened or closed, a long
    write fails), no release is cut: [newRelease] is not run, the
    new-version file is as it was, and the console ends on the error of
    the reset. *)
Theorem release_stops_when_reset_fails yaml io (tag : string) (e : error) (w : World) :
  tag <> "" ->
  eval (resetDev yaml io) w = Some e ->
  files (exec (main yaml io true tag) w) !! NewVersionFullPathFilename =
    files w !! NewVersionFullPathFilename /\
  last (stdout (exec (main yaml io true tag) w)) =
    Some ("resetDev failed. Err: " +:+ Error e +:+ LF).
Proof. apply main_release_reset_failed. Qed.

Lemma release_stops_when_reset_fails_witness :
  let io := open_fails DevFullPathFilename "permission denied" in
  let e := LibError "open hack/DEV_BUILD_VERSION.yaml: permission denied" in
  let w := world [(NewVersionFullPathFilename, "1.2.0")] in
  "1.2.3" <> "" /\
  eval (resetDev flat_yaml io) w = Some e /\
  files (exec (main flat_yaml io true "1.2.3") w) !! NewVersionFullPathFilename =
    files w !! NewVersionFullPathFilename /\
  last (stdout (exec (main flat_yaml io true "1.2.3") w)) =
    Some ("resetDev failed. Err: " +:+ Error e +:+ LF).
Proof.
  intros io e w.
  assert (Hne : "1.2.3" <> "") by discriminate.
  assert (He : eval (resetDev flat_yaml io) w = Some e) by (vm_compute; reflexivity).
  split; [exact Hne|]. split; [exact He|].
  exact (release_stops_when_reset_fails flat_yaml io "1.2.3" e w Hne He).
Defined.

(** X15.  A release run can end on [Succeeded] with an incomplete
    new-version file: when the write of a new version of at most 4096
    bytes fails after [n] bytes and the close works, [main] reports
    success and the file holds only those [n] bytes. *)
Theorem release_succeeds_on_short_write
    yaml io (a s c bytes msg : string) (N : Z) (n : nat) (w : World) :
  dot_free a = true -> dot_free c = true ->
  integer_literal s = Some N -> minInt <= N < maxInt ->
  Marshal yaml {| Version_Version := DefaultTagVersion |} = inl bytes ->
  writable io DevFullPathFilename ->
  opens_for_write io NewVersionFullPathFilename ->
  write_fault io NewVersionFullPathFilename = Some (n, msg) ->
  close_fault io NewVersionFullPathFilename = None ->
  len (a +:+ "." +:+ fmt_d (N + 1) +:+ ".0") <= defaultBufSize ->
  let w' := exec (main yaml io true (a +:+ "." +:+ s +:+ "." +:+ c)) w in
  succeeded w' /\
  files w' !! NewVersionFullPathFilename =
    Some (str_take n (a +:+ "." +:+ fmt_d (N + 1) +:+ ".0")).
Proof.
  intros Ha Hc Hs HN Hm Hdev Ho Hw Hcl Hlen w'. subst w'.
  set (version := a +:+ "." +:+ fmt_d (N + 1) +:+ ".0") in *.
  assert (Hne : a +:+ "." +:+ s +:+ "." +:+ c <> "") by (destruct a; discriminate).
  destruct (main_release_after_reset yaml io _ bytes w Hne Hm Hdev)
    as (w1 & Hf1 & Hfiles & Hout).
  pose proof (incrementRelease_second_field a s c N w1 Ha Hc Hs HN) as Hinc.
  fold version in Hinc.
  set (w2 := exec (incrementRelease (a +:+ "." +:+ s +:+ "." +:+ c)) w1).
  destruct (saveRelease_write_fault io version w2 n msg Ho Hw) as [He Hf].
  unfold close_result in He. rewrite Hcl in He. cbn [option_map] in He.
  destruct (Z.ltb_spec defaultBufSize (len version)) as [Hbig|_]; [lia|].
  assert (Hrun : newRelease io (a +:+ "." +:+ s +:+ "." +:+ c) w1 =
                 (None, exec (saveRelease io version) w2)).
  { unfold newRelease, bind.
    rewrite (run_eval_exec (incrementRelease _) w1), Hinc. fold w2.
    rewrite (run_eval_exec (saveRelease io version) w2), He. reflexivity. }
  unfold eval in Hout. unfold exec at 2 in Hfiles. rewrite Hrun in Hout, Hfiles.
  cbn [fst snd] in Hout, Hfiles.
  split; [exact Hout|]. rewrite Hfiles, Hf. apply lookup_insert_eq.
Qed.

Lemma release_succeeds_on_short_write_witness :
  let io := write_fails NewVersionFullPathFilename 2 "no space left on device" in
  let w := world [] in
  let w' := exec (main flat_yaml io true ("1" +:+ "." +:+ "2" +:+ "." +:+ "3")) w in
  dot_free "1" = true /\ dot_free "3" = true /\
  integer_literal "2" = Some 2 /\ minInt <= 2 < maxInt /\
  Marshal flat_yaml {| Version_Version := DefaultTagVersion |} =
    inl ("version: dev.1" +:+ LF) /\
  writable io DevFullPathFilename /\
  opens_for_write io NewVersionFullPathFilename /\
  write_fault io NewVersionFullPathFilename = Some (2%nat, "no space left on device") /\
  close_fault io NewVersionFullPathFilename = None /\
  len ("1" +:+ "." +:+ fmt_d (2 + 1) +:+ ".0") <= defaultBufSize /\
  succeeded w' /\
  files w' !! NewVersionFullPathFilename =
    Some (str_take 2 ("1" +:+ "." +:+ fmt_d (2 + 1) +:+ ".0")).
Proof.
  intros io w w'.
  assert (HN : minInt <= 2 < maxInt) by (split; [discriminate|reflexivity]).
  assert (Hdev : writable io DevFullPathFilename) by (repeat split; reflexivity).
  assert (Hlen : len ("1" +:+ "." +:+ fmt_d (2 + 1) +:+ ".0") <= defaultBufSize)
    by (vm_compute; discriminate).
  do 3 (split; [reflexivity|]). split; [exact HN|]. split; [reflexivity|].
  split; [exact Hdev|]. do 3 (split; [reflexivity|]). split; [exact Hlen|].
  apply (release_succeeds_on_short_write flat_yaml io "1" "2" "3"
           ("version: dev.1" +:+ LF) "no space left on device" 2 2 w);
    try reflexivity; assumption.
Defined.

(** ** Runs in a row *)

(** X16.  The first dev run after a release run gives [dev.2], whatever
    became of the release itself: if the YAML package gives [dev.1] back
    and marshals [dev.2], and no call on the dev marker file fails, then
    after [main] in release mode (any non-empty tag, any fate of the
    new-version file) followed by [main] in dev mode, the console ends on
    [Succeeded] and the dev marker file holds the YAML form of [dev.2]. *)
Theorem dev_run_after_release_run
    yaml io (tag tag' b1 b2 : string) (w : World) :
  tag <> "" ->
  Marshal yaml {| Version_Version := "dev.1" |} = inl b1 ->
  Unmarshal yaml b1 = inl {| Version_Version := "dev.1" |} ->
  Marshal yaml {| Version_Version := "dev.2" |} = inl b2 ->
  writable io DevFullPathFilename ->
  readable io DevFullPathFilename ->
  let w1 := exec (main yaml io true tag) w in
  let w2 := exec (main yaml io false tag') w1 in
  succeeded w2 /\ files w2 !! DevFullPathFilename = Some b2.
Proof.
  intros Hne Hm1 Hu1 Hm2 Hwr Hrd w1 w2.
  assert (Hdev1 : files w1 !! DevFullPathFilename = Some b1).
  { subst w1.
    destruct (main_release_after_reset yaml io tag b1 w Hne Hm1 Hwr)
      as (w0 & Hf0 & Hfiles & _).
    rewrite Hfiles, (newRelease_frame io tag w0 _ paths_differ), Hf0.
    apply lookup_insert_eq. }
  assert (Hinc : forall w0, eval (incrementDev "dev.1") w0 = Ok "dev.2")
    by (intros w0; rewrite incrementDev_eval; vm_compute; reflexivity).
  destruct (main_dev_ok yaml io tag' w1 b1 "dev.1" "dev.2" b2
              Hrd Hwr Hdev1 Hu1 Hinc Hm2) as [Hs Hf].
  subst w2. split; [exact Hs|]. rewrite Hf. apply lookup_insert_eq.
Qed.

Lemma dev_run_after_release_run_witness :
  let io := new_version_locked in
  let w := world [(DevFullPathFilename, "version: dev.7" +:+ LF)] in
  let w1 := exec (main flat_yaml io true "not-a-version") w in
  let w2 := exec (main flat_yaml io false "") w1 in
  "not-a-version" <> "" /\
  Marshal flat_yaml {| Version_Version := "dev.1" |} = inl ("version: dev.1" +:+ LF) /\
  Unmarshal flat_yaml ("version: dev.1" +:+ LF) = inl {| Version_Version := "dev.1" |} /\
  Marshal flat_yaml {| Version_Version := "dev.2" |} = inl ("version: dev.2" +:+ LF) /\
  writable io DevFullPathFilename /\
  readable io DevFullPathFilename /\
  succeeded w2 /\
  files w2 !! DevFullPathFilename = Some ("version: dev.2" +:+ LF).
Proof.
  intros io w w1 w2.
  assert (Hne : "not-a-version" <> "") by discriminate.
  assert (Hwr : writable io DevFullPathFilename) by (repeat split; reflexivity).
  assert (Hrd : readable io DevFullPathFilename) by (split; reflexivity).
  split; [exact Hne|]. do 3 (split; [reflexivity|]).
  split; [exact Hwr|]. split; [exact Hrd|].
  apply (dev_run_after_release_run flat_yaml io "not-a-version" ""
           ("version: dev.1" +:+ LF) ("version: dev.2" +:+ LF) w);
    try reflexivity; assumption.
Defined.

(** X17.  Two dev runs in a row add two: the tag the first run writes
    is read back and bumped by the second.  For a dev marker file that
    decodes to [X.N] with [minInt <= N] and [N + 2 <= maxInt], a YAML
    package that marshals [dev.(N+1)] and [dev.(N+2)] and gives
    [dev.(N+1)] back, and no failing call, both runs end on [Succeeded]
    and the dev marker file holds the YAML form of [dev.(N+2)]. *)
Theorem two_dev_runs
    yaml io (tag tag' : string) (w : World) (b0 x s b1 b2 : string) (N : Z) :
  readable io DevFullPathFilename ->
  writable io DevFullPathFilename ->
  files w !! DevFullPathFilename = Some b0 ->
  Unmarshal yaml b0 = inl {| Version_Version := x +:+ "." +:+ s |} ->
  dot_free x = true -> integer_literal s = Some N ->
  minInt <= N -> N + 2 <= maxInt ->
  Marshal yaml {| Version_Version := "dev." +:+ fmt_d (N + 1) |} = inl b1 ->
  Unmarshal yaml b1 = inl {| Version_Version := "dev." +:+ fmt_d (N + 1) |} ->
  Marshal yaml {| Version_Version := "dev." +:+ fmt_d (N + 2) |} = inl b2 ->
  let w1 := exec (main yaml io false tag) w in
  let w2 := exec (main yaml io false tag') w1 in
  succeeded w1 /\ succeeded w2 /\
  files w2 = <[DevFullPathFilename := b2]> (files w).
Proof.
  intros Hrd Hwr Hf Hu0 Hx Hs Hlo Hhi Hm1 Hu1 Hm2 w1 w2.
  assert (Hinc1 : forall w0, eval (incrementDev (x +:+ "." +:+ s)) w0 =
                             Ok ("dev." +:+ fmt_d (N + 1)))
    by (intros w0; apply incrementDev_second_field; auto; lia).
  destruct (main_dev_ok yaml io tag w b0 _ _ b1 Hrd Hwr Hf Hu0 Hinc1 Hm1)
    as [Hs1 Hf1]. fold w1 in Hs1, Hf1.
  assert (Hinc2 : forall w0, eval (incrementDev ("dev." +:+ fmt_d (N + 1))) w0 =
                             Ok ("dev." +:+ fmt_d (N + 2))).
  { intros w0. replace (N + 2) with (N + 1 + 1) by lia.
    apply (incrementDev_second_field "dev" (fmt_d (N + 1)) (N + 1) w0);
      [reflexivity|apply integer_literal_fmt_d|lia]. }
  assert (Hdev1 : files w1 !! DevFullPathFilename = Some b1)
    by (rewrite Hf1; apply lookup_insert_eq).
  destruct (main_dev_ok yaml io tag' w1 b1 _ _ b2 Hrd Hwr Hdev1 Hu1 Hinc2 Hm2)
    as [Hs2 Hf2]. fold w2 in Hs2, Hf2.
  split; [exact Hs1|]. split; [exact Hs2|].
  rewrite Hf2, Hf1. apply insert_insert_eq.
Qed.

Lemma two_dev_runs_witness :
  let w := world [(DevFullPathFilename, "version: rc.09" +:+ LF)] in
  let w1 := exec (main flat_yaml quiet false "") w in
  let w2 := exec (main flat_yaml quiet false "") w1 in
  readable quiet DevFullPathFilename /\
  writable quiet DevFullPathFilename /\
  files w !! DevFullPathFilename = Some ("version: rc.09" +:+ LF) /\
  Unmarshal flat_yaml ("version: rc.09" +:+ LF) =
    inl {| Version_Version := "rc" +:+ "." +:+ "09" |} /\
  dot_free "rc" = true /\ integer_literal "09" = Some 9 /\
  minInt <= 9 /\ 9 + 2 <= maxInt /\
  Marshal flat_yaml {| Version_Version := "dev." +:+ fmt_d (9 + 1) |} =
    inl ("version: dev.10" +:+ LF) /\
  Unmarshal flat_yaml ("version: dev.10" +:+ LF) =
    inl {| Version_Version := "dev." +:+ fmt_d (9 + 1) |} /\
  Marshal flat_yaml {| Version_Version := "dev." +:+ fmt_d (9 + 2) |} =
    inl ("version: dev.11" +:+ LF) /\
  succeeded w1 /\ succeeded w2 /\
  files w2 = <[DevFullPathFilename := "version: dev.11" +:+ LF]> (files w).
Proof.
  intros w w1 w2.
  assert (Hrd : readable quiet DevFullPathFilename) by (split; reflexivity).
  assert (Hwr : writable quiet DevFullPathFilename) by (repeat split; reflexivity).
  assert (Hlo : minInt <= 9) by discriminate.
  assert (Hhi : 9 + 2 <= maxInt) by discriminate.
  split; [exact Hrd|]. split; [exact Hwr|].
  do 2 (split; [vm_compute; reflexivity|]). do 2 (split; [reflexivity|]).
  split; [exact Hlo|]. split; [exact Hhi|].
  do 3 (split; [vm_compute; reflexivity|]).
  apply (two_dev_runs flat_yaml quiet "" "" w ("version: rc.09" +:+ LF) "rc" "09"
           ("version: dev.10" +:+ LF) ("version: dev.11" +:+ LF) 9);
    try assumption; try reflexivity; vm_compute; reflexivity.
Defined.

(** ** What [Succeeded] on the console means *)

Lemma saveRelease_eval_any io (version : string) (w1 w2 : World) :
  eval (saveRelease io version) w1 = eval (saveRelease io version) w2.
Proof.
  destruct (open_fault io NewVersionFullPathFilename
              (Z.lor O_RDWR (Z.lor O_CREATE O_TRUNC))) as [msg|] eqn:Ho.
  - rewrite (proj1 (saveRelease_not_opened io version w1 msg Ho)),
            (proj1 (saveRelease_not_opened io version w2 msg Ho)).
    reflexivity.
  - destruct (write_fault io NewVersionFullPathFilename) as [[n msg]|] eqn:Hw.
    + rewrite (proj1 (saveRelease_write_fault io version w1 n msg Ho Hw)),
              (proj1 (saveRelease_write_fault io version w2 n msg Ho Hw)).
      reflexivity.
    + rewrite (proj1 (saveRelease_written io version w1 Ho Hw)),
              (proj1 (saveRelease_written io version w2 Ho Hw)).
      reflexivity.
Qed.

Lemma newRelease_eval_any io (tag : string) (w1 w2 : World) :
  eval (newRelease io tag) w1 = eval (newRelease io tag) w2.
Proof.
  unfold eval at 1 2, newRelease, bind.
  rewrite (run_eval_exec (incrementRelease tag) w1),
          (run_eval_exec (incrementRelease tag) w2), !incrementRelease_eval.
  destruct (malformedRelease tag); [reflexivity|].
  match goal with |- context [saveRelease io ?v (exec _ w1)] =>
    rewrite (run_eval_exec (saveRelease io v) (exec (incrementRelease tag) w1)),
            (run_eval_exec (saveRelease io v) (exec (incrementRelease tag) w2)),
            (saveRelease_eval_any io v (exec (incrementRelease tag) w1)
               (exec (incrementRelease tag) w2));
    destruct (eval (saveRelease io v) (exec (incrementRelease tag) w2)) end;
    reflexivity.
Qed.

Lemma bumpDev_eval_files yaml io (w1 w2 : World) :
  files w1 = files w2 ->
  eval (bumpDev yaml io) w1 = eval (bumpDev yaml io) w2.
Proof.
  intros Hf. unfold eval at 1 2, bumpDev, bind.
  rewrite (run_eval_exec (getTag yaml io) w1), (run_eval_exec (getTag yaml io) w2),
          (getTag_eval_files yaml io w1 w2 Hf).
  destruct (eval (getTag yaml io) w2) as [v|e]; [|reflexivity].
  rewrite (run_eval_exec (incrementDev v) (exec (getTag yaml io) w1)),
          (run_eval_exec (incrementDev v) (exec (getTag yaml io) w2)),
          !incrementDev_eval.
  destruct (malformedDev v); [reflexivity|].
  match goal with |- context [saveDev yaml io ?t (exec _ (exec _ w1))] =>
    rewrite (run_eval_exec (saveDev yaml io t)
               (exec (incrementDev v) (exec (getTag yaml io) w1))),
            (run_eval_exec (saveDev yaml io t)
               (exec (incrementDev v) (exec (getTag yaml io) w2))),
            (saveDev_eval_any yaml io t
               (exec (incrementDev v) (exec (getTag yaml io) w1))
               (exec (incrementDev v) (exec (getTag yaml io) w2)));
    destruct (eval (saveDev yaml io t) _) end;
    reflexivity.
Qed.

(** A console line that does not start with [S] is not [Succeeded]. *)
Ltac not_Succeeded H :=
  exfalso;
  apply (f_equal (fun o => match o with
                           | Some (String c _) => c
                           | _ => "S"%char
                           end)) in H;
  vm_compute in H; discriminate H.

(** X18.  The console ends on [Succeeded] exactly when every step
    returned nil: in dev mode when [bumpDev] did, in release mode when a
    tag was given and both [resetDev] and [newRelease] did. *)
Theorem Succeeded_iff_no_error yaml io (tag : string) (w : World) :
  (succeeded (exec (main yaml io false tag) w) <->
   eval (bumpDev yaml io) w = None) /\
  (succeeded (exec (main yaml io true tag) w) <->
   tag <> "" /\ eval (resetDev yaml io) w = None /\
   eval (newRelease io tag) w = None).
Proof.
  unfold succeeded. split.
  - destruct (main_dev_files yaml io tag w) as (w0 & Hw0 & _ & Hout).
    rewrite Hout, (bumpDev_eval_files yaml io w0 w Hw0).
    destruct (eval (bumpDev yaml io) w) as [e|].
    + split; [|discriminate]. intros H. not_Succeeded H.
    + split; reflexivity.
  - set (w0 := exec (fmt_Printf ("Cutting GA release, so resetting" +:+ LF)) w).
    destruct (String.eqb_spec tag "") as [->|Hne].
    + change (exec (main yaml io true "") w)
        with (exec (fmt_Printf ("Must supply -tag when -release is set" +:+ LF)) w).
      rewrite Printf_last.
      split; [intros H; not_Succeeded H|intros [H _]; congruence].
    + assert (Hr : eval (resetDev yaml io) w0 = eval (resetDev yaml io) w)
        by apply saveDev_eval_any.
      destruct (resetDev yaml io w0) as [[e|] w1] eqn:Hrun.
      * assert (He : eval (resetDev yaml io) w = Some e)
          by (rewrite <- Hr; unfold eval; rewrite Hrun; reflexivity).
        destruct (main_release_reset_failed yaml io tag e w Hne He) as [_ Hl].
        rewrite Hl, He. split.
        -- intros H. not_Succeeded H.
        -- intros (_ & H & _). discriminate H.
      * assert (He : eval (resetDev yaml io) w = None)
          by (rewrite <- Hr; unfold eval; rewrite Hrun; reflexivity).
        unfold exec. rewrite (main_release_run yaml io tag w w1 Hne Hrun).
        cbv zeta. fold (eval (newRelease io tag) w1).
        rewrite (newRelease_eval_any io tag w1 w), He.
        destruct (eval (newRelease io tag) w) as [e|];
          (unfold fmt_Printf; cbn [snd stdout]; rewrite last_snoc).
        -- split.
           ++ intros H. not_Succeeded H.
           ++ intros (_ & _ & H). discriminate H.
        -- split; [|reflexivity]. intros _. repeat split. exact Hne.
Qed.

(** X19.  A dev run can end on [Succeeded] with the dev counter lost:
    when the write of the new tag (at most 4096 bytes of YAML) fails
    after [n] bytes and the close works, [main] reports success and the
    dev marker file, truncated by the open, holds only those [n] bytes of
    the new tag and nothing of the old one. *)
Theorem dev_run_succeeds_on_short_write
    yaml io (tag : string) (w : World) (b0 x s b1 msg : string) (N : Z) (n : nat) :
  readable io DevFullPathFilename ->
  opens_for_write io DevFullPathFilename ->
  write_fault io DevFullPathFilename = Some (n, msg) ->
  close_fault io DevFullPathFilename = None ->
  files w !! DevFullPathFilename = Some b0 ->
  Unmarshal yaml b0 = inl {| Version_Version := x +:+ "." +:+ s |} ->
  dot_free x = true -> integer_literal s = Some N -> minInt <= N < maxInt ->
  Marshal yaml {| Version_Version := "dev." +:+ fmt_d (N + 1) |} = inl b1 ->
  len b1 <= defaultBufSize ->
  succeeded (exec (main yaml io false tag) w) /\
  files (exec (main yaml io false tag) w) !! DevFullPathFilename =
    Some (str_take n b1).
Proof.
  intros Hrd Ho Hw Hcl Hf Hu Hx Hs HN Hm Hlen.
  destruct (main_dev_files yaml io tag w) as (w0 & Hw0 & Hfiles & Hout).
  pose proof (getTag_ok yaml io w0 b0 _ Hrd ltac:(rewrite Hw0; exact Hf) Hu) as Hg.
  cbn [Version_Version] in Hg.
  set (w1 := exec (getTag yaml io) w0).
  pose proof (incrementDev_second_field x s N w1 Hx Hs HN) as Hinc.
  set (w2 := exec (incrementDev (x +:+ "." +:+ s)) w1).
  destruct (saveDev_write_fault yaml io _ b1 w2 n msg Hm Ho Hw) as [He Hsf].
  unfold close_result in He. rewrite Hcl in He. cbn [option_map] in He.
  destruct (Z.ltb_spec defaultBufSize (len b1)) as [Hbig|_]; [lia|].
  assert (Hrun : bumpDev yaml io w0 =
                 (None, exec (saveDev yaml io ("dev." +:+ fmt_d (N + 1))) w2)).
  { unfold bumpDev, bind.
    rewrite (run_eval_exec (getTag yaml io) w0), Hg. fold w1.
    rewrite (run_eval_exec (incrementDev _) w1), Hinc. fold w2.
    rewrite (run_eval_exec (saveDev yaml io _) w2), He. reflexivity. }
  unfold eval in Hout. unfold exec at 2 in Hfiles. rewrite Hrun in Hout, Hfiles.
  cbn [fst snd] in Hout, Hfiles.
  split; [exact Hout|]. rewrite Hfiles, Hsf. apply lookup_insert_eq.
Qed.

Lemma dev_run_succeeds_on_short_write_witness :
  let io := write_fails DevFullPathFilename 0 "no space left on device" in
  let w := world [(DevFullPathFilename, "version: dev.41" +:+ LF)] in
  readable io DevFullPathFilename /\
  opens_for_write io DevFullPathFilename /\
  write_fault io DevFullPathFilename = Some (0%nat, "no space left on device") /\
  close_fault io DevFullPathFilename = None /\
  files w !! DevFullPathFilename = Some ("version: dev.41" +:+ LF) /\
  Unmarshal flat_yaml ("version: dev.41" +:+ LF) =
    inl {| Version_Version := "dev" +:+ "." +:+ "41" |} /\
  dot_free "dev" = true /\ integer_literal "41" = Some 41 /\
  minInt <= 41 < maxInt /\
  Marshal flat_yaml {| Version_Version := "dev." +:+ fmt_d (41 + 1) |} =
    inl ("version: dev.42" +:+ LF) /\
  len ("version: dev.42" +:+ LF) <= defaultBufSize /\
  succeeded (exec (main flat_yaml io false "") w) /\
  files (exec (main flat_yaml io false "") w) !! DevFullPathFilename =
    Some (str_take 0 ("version: dev.42" +:+ LF)).
Proof.
  intros io w.
  assert (Hrd : readable io DevFullPathFilename) by (split; reflexivity).
  assert (HN : minInt <= 41 < maxInt) by (split; [discriminate|reflexivity]).
  assert (Hlen : len ("version: dev.42" +:+ LF) <= defaultBufSize)
    by (vm_compute; discriminate).
  split; [exact Hrd|]. do 3 (split; [reflexivity|]).
  do 2 (split; [vm_compute; reflexivity|]). do 2 (split; [reflexivity|]).
  split; [exact HN|]. split; [vm_compute; reflexivity|]. split; [exact Hlen|].
  apply (dev_run_succeeds_on_short_write flat_yaml io "" w
           ("version: dev.41" +:+ LF) "dev" "41" ("version: dev.42" +:+ LF)
           "no space left on device" 41 0);
    try assumption; try reflexivity; vm_compute; reflexivity.
Defined.
